(** * prom_multi_proc: the metric registry and the ingestion pipeline

    A shallow embedding of [registry.go] and [prom_multi_proc.go] and the
    properties of the registry (register, unregister, Reload, Handle), of
    the spec fingerprint and of the payload decoder.

    Go strings are byte sequences and are modelled by [string] (a list of
    8-bit [ascii]); [float64] is IEEE 754 binary64 and is modelled by the
    primitive [float]; Go maps with string keys are [gmap string _]. The
    registry's mutex is not modelled: the operations below are the bodies
    that run with the lock held, one at a time. What the code takes from
    libraries ([strconv], [encoding/json], prometheus' registerer) and the
    order of [range] over a map are parameters, given as type classes. *)

From Stdlib Require Import ZArith Ascii Floats Uint63.
From stdpp Require Import gmap strings list fin_maps sorting.

(* The float literals of the source are decimal; each denotes the nearest
   binary64 value, as in Go. *)
#[local] Set Warnings "-inexact-float".

Local Open Scope string_scope.
Local Open Scope list_scope.

(** ** crypto/md5

    The digest of RFC 1321 on byte strings, as [md5.New] / [io.WriteString]
    / [Sum] compute it; [hexdigest] is [fmt.Sprintf("%x", h.Sum(nil))]. *)
Module MD5.

Local Open Scope Z_scope.

Definition w32 (x : Z) : Z := x mod 2 ^ 32.

Definition rotl (x n : Z) : Z :=
  w32 (Z.lor (Z.shiftl x n) (Z.shiftr x (32 - n))).

Definition not32 (x : Z) : Z := Z.lxor x 0xffffffff.

Definition K : list Z :=
  [ 0xd76aa478; 0xe8c7b756; 0x242070db; 0xc1bdceee;
    0xf57c0faf; 0x4787c62a; 0xa8304613; 0xfd469501;
    0x698098d8; 0x8b44f7af; 0xffff5bb1; 0x895cd7be;
    0x6b901122; 0xfd987193; 0xa679438e; 0x49b40821;
    0xf61e2562; 0xc040b340; 0x265e5a51; 0xe9b6c7aa;
    0xd62f105d; 0x02441453; 0xd8a1e681; 0xe7d3fbc8;
    0x21e1cde6; 0xc33707d6; 0xf4d50d87; 0x455a14ed;
    0xa9e3e905; 0xfcefa3f8; 0x676f02d9; 0x8d2a4c8a;
    0xfffa3942; 0x8771f681; 0x6d9d6122; 0xfde5380c;
    0xa4beea44; 0x4bdecfa9; 0xf6bb4b60; 0xbebfbc70;
    0x289b7ec6; 0xeaa127fa; 0xd4ef3085; 0x04881d05;
    0xd9d4d039; 0xe6db99e5; 0x1fa27cf8; 0xc4ac5665;
    0xf4292244; 0x432aff97; 0xab9423a7; 0xfc93a039;
    0x655b59c3; 0x8f0ccc92; 0xffeff47d; 0x85845dd1;
    0x6fa87e4f; 0xfe2ce6e0; 0xa3014314; 0x4e0811a1;
    0xf7537e82; 0xbd3af235; 0x2ad7d2bb; 0xeb86d391 ].

Definition shifts : list Z :=
  [ 7; 12; 17; 22; 7; 12; 17; 22; 7; 12; 17; 22; 7; 12; 17; 22;
    5; 9; 14; 20; 5; 9; 14; 20; 5; 9; 14; 20; 5; 9; 14; 20;
    4; 11; 16; 23; 4; 11; 16; 23; 4; 11; 16; 23; 4; 11; 16; 23;
    6; 10; 15; 21; 6; 10; 15; 21; 6; 10; 15; 21; 6; 10; 15; 21 ].

Record digest := Digest { dA : Z; dB : Z; dC : Z; dD : Z }.

Definition init : digest :=
  Digest 0x67452301 0xefcdab89 0x98badcfe 0x10325476.

(** One of the 64 operations of a block: [i] is the operation's index and
    [m] the sixteen little-endian words of the block. *)
Definition round (m : list Z) (d : digest) (i : nat) : digest :=
  let '(Digest a b c e) := d in
  let iz := Z.of_nat i in
  let '(f, g) :=
    if iz <? 16 then (Z.lor (Z.land b c) (Z.land (not32 b) e), iz)
    else if iz <? 32 then
      (Z.lor (Z.land e b) (Z.land (not32 e) c), (5 * iz + 1) mod 16)
    else if iz <? 48 then (Z.lxor (Z.lxor b c) e, (3 * iz + 5) mod 16)
    else (Z.lxor c (Z.lor b (not32 e)), (7 * iz) mod 16) in
  let f' := w32 (f + a + nth i K 0 + nth (Z.to_nat g) m 0) in
  Digest e (w32 (b + rotl f' (nth i shifts 0))) b c.

Definition block (d : digest) (m : list Z) : digest :=
  let '(Digest a b c e) := foldl (round m) d (seq 0 64) in
  Digest (w32 (dA d + a)) (w32 (dB d + b)) (w32 (dC d + c)) (w32 (dD d + e)).

Definition bytes_of_string (s : string) : list Z :=
  (λ c, Z.of_N (Ascii.N_of_ascii c)) <$> String.list_ascii_of_string s.

(** [n] little-endian bytes of [x]. *)
Fixpoint le_bytes (n : nat) (x : Z) : list Z :=
  match n with
  | O => []
  | S n' => x mod 256 :: le_bytes n' (x / 256)
  end.

Definition pad (bs : list Z) : list Z :=
  let len := Z.of_nat (length bs) in
  bs ++ [0x80] ++ replicate (Z.to_nat ((55 - len) mod 64)) 0
     ++ le_bytes 8 ((8 * len) mod 2 ^ 64).

Definition le_word (bs : list Z) : Z :=
  foldr (λ b acc, b + 256 * acc) 0 bs.

(** Cut a list into pieces of [n] elements. *)
Fixpoint chunks {A} (fuel n : nat) (l : list A) : list (list A) :=
  match fuel, l with
  | O, _ | _, [] => []
  | S fuel', _ => take n l :: chunks fuel' n (drop n l)
  end.

Definition words (bs : list Z) : list Z :=
  le_word <$> chunks (length bs) 4 bs.

Definition Sum (bs : list Z) : list Z :=
  let ws := words (pad bs) in
  let '(Digest a b c e) := foldl block init (chunks (length ws) 16 ws) in
  le_bytes 4 a ++ le_bytes 4 b ++ le_bytes 4 c ++ le_bytes 4 e.

Definition hexdigit (x : Z) : ascii :=
  if x <? 10 then Ascii.ascii_of_N (Z.to_N (48 + x))
  else Ascii.ascii_of_N (Z.to_N (87 + x)).

Definition hex (bs : list Z) : string :=
  foldr (λ b acc, String (hexdigit (b / 16)) (String (hexdigit (b mod 16)) acc))
        "" bs.

Definition hexdigest (s : string) : string := hex (Sum (bytes_of_string s)).

End MD5.




(** ** Errors

    The Go code builds its errors with [fmt.Errorf]; each constructor stands
    for one of its messages ([nil] is [None] in an [option error]). *)
Inductive error :=
| ErrInvalidName (name : string)
    (* "Metric name '%s' is not valid" *)
| ErrReRegister (name : string)
    (* "Failed to re-register %s" *)
| ErrUnregisterMissing (name : string)
    (* "Unregister: metric %s does not exist" *)
| ErrUnregister (name : string)
    (* "Failed to unregister %s" *)
| ErrHandleMissing (name : string)
    (* "Handle: metric %s does not exist" *)
| ErrUnknownType (name type : string)
    (* "Unknown metric %s is unknown type %s" *)
| ErrDuplicateLabel (label : string)
    (* "Duplicate label found: %s" *)
| ErrLibrary (msg : string).
    (* an error value handed back by strconv, encoding/json or prometheus *)

(** A Go result pair [(T, error)] of which the caller uses the value only
    when the error is [nil]. *)
Inductive result (A : Type) :=
| Ok (a : A)
| Err (e : error).
Arguments Ok {A} a.
Arguments Err {A} e.

(** ** regexp

    The fragment of Go's [regexp] syntax that [metricRe] uses: character
    classes of byte ranges, concatenation and [+]. [Void], [Eps], [Alt] and
    [Star] are there for the derivatives. *)
Module Regexp.

Inductive regexp :=
| Void
| Eps
| Class (ranges : list (ascii * ascii))
| Cat (r1 r2 : regexp)
| Alt (r1 r2 : regexp)
| Star (r : regexp).

(** [r+] *)
Definition Plus (r : regexp) : regexp := Cat r (Star r).

Definition in_range (c : ascii) (rg : ascii * ascii) : bool :=
  (N_of_ascii rg.1 <=? N_of_ascii c)%N && (N_of_ascii c <=? N_of_ascii rg.2)%N.

Definition in_class (c : ascii) (ranges : list (ascii * ascii)) : bool :=
  existsb (in_range c) ranges.

Fixpoint nullable (r : regexp) : bool :=
  match r with
  | Void => false
  | Eps => true
  | Class _ => false
  | Cat r1 r2 => nullable r1 && nullable r2
  | Alt r1 r2 => nullable r1 || nullable r2
  | Star _ => true
  end.

Fixpoint deriv (c : ascii) (r : regexp) : regexp :=
  match r with
  | Void => Void
  | Eps => Void
  | Class rs => if in_class c rs then Eps else Void
  | Cat r1 r2 =>
      if nullable r1 then Alt (Cat (deriv c r1) r2) (deriv c r2)
      else Cat (deriv c r1) r2
  | Alt r1 r2 => Alt (deriv c r1) (deriv c r2)
  | Star r1 => Cat (deriv c r1) (Star r1)
  end.

Fixpoint matches (r : regexp) (s : list ascii) : bool :=
  match s with
  | [] => nullable r
  | c :: s' => matches (deriv c r) s'
  end.

(** [MatchString] of a pattern written [^r$]: the two anchors make the
    match cover the whole text (Go's [$] without the [m] flag matches at the
    end of the text only). *)
Definition MatchString (r : regexp) (s : string) : bool :=
  matches r (String.list_ascii_of_string s).

(** The words of a regular expression. *)
Inductive lang : regexp → list ascii → Prop :=
| lang_eps : lang Eps []
| lang_class rs c : in_class c rs = true → lang (Class rs) [c]
| lang_cat r1 r2 s1 s2 :
    lang r1 s1 → lang r2 s2 → lang (Cat r1 r2) (s1 ++ s2)
| lang_alt_l r1 r2 s : lang r1 s → lang (Alt r1 r2) s
| lang_alt_r r1 r2 s : lang r2 s → lang (Alt r1 r2) s
| lang_star_nil r : lang (Star r) []
| lang_star_app r s1 s2 :
    lang r s1 → lang (Star r) s2 → lang (Star r) (s1 ++ s2).

End Regexp.

Import Regexp.

(** [metricRe = regexp.MustCompile(`^[a-z]+[0-9a-z_]+$`)] *)
Definition lowerClass : list (ascii * ascii) := [("a", "z")]%char.
Definition wordClass : list (ascii * ascii) :=
  [("0", "9"); ("a", "z"); ("_", "_")]%char.

Definition metricRe : regexp :=
  Cat (Plus (Class lowerClass)) (Plus (Class wordClass)).

Definition validateMetric (name : string) : option error :=
  if negb (MatchString metricRe name) then Some (ErrInvalidName name)
  else None.

(** The identifier grammar in the specification's words: only lowercase
    letters, digits and underscores, starting with a lowercase letter. *)
Definition is_lower (c : ascii) : bool := in_class c lowerClass.
Definition is_ident_char (c : ascii) : bool :=
  in_class c [("a", "z")]%char || in_class c [("0", "9")]%char
  || Ascii.eqb c "_".

Definition identifier (s : string) : bool :=
  match String.list_ascii_of_string s with
  | [] => false
  | c :: rest => is_lower c && forallb is_ident_char rest
  end.

(** ** The spec model ([prom_multi_proc.go]) *)

Record MetricSpec := {
  Type_ : string;                  (* json:"type" *)
  Name : string;
  Help : string;
  Labels : list string;
  Buckets : list float;
  Objectives : gmap string float;
}.

Record Metric := {
  MetricName : string;             (* json:"name" *)
  LabelValues : list string;
  Method : string;
  Value : float;
}.

(** What the code takes from [strconv] and [fmt] for a [float64]: the [%v]
    rendering and [strconv.ParseFloat(key, 64)]. *)
Class Strconv := {
  FormatFloat : float → string;
  ParseFloat : string → result float;
}.

(** The order in which a [range] statement visits a Go map is not
    specified; an instance fixes one order for every map. *)
Class MapOrder := {
  range : ∀ {V : Type}, gmap string V → list (string * V);
  range_perm : ∀ (V : Type) (m : gmap string V), range m ≡ₚ map_to_list m;
}.

(** *** fmt.Sprintf("%+v", _) of a slice and of a map

    A slice prints as [[a b c]], a map as [map[k1:v1 k2:v2]] with its keys in
    increasing order; a nil slice or map prints like an empty one. *)
Definition key_le {V : Type} : relation (string * V) :=
  λ a b, Is_true (String.leb a.1 b.1).

Definition sorted_entries {V : Type} (m : gmap string V) : list (string * V) :=
  merge_sort key_le (map_to_list m).

Section fingerprint.
Context {SC : Strconv}.

Definition SprintfStrings (l : list string) : string :=
  "[" +:+ String.concat " " l +:+ "]".

Definition SprintfFloats (l : list float) : string :=
  "[" +:+ String.concat " " (FormatFloat <$> l) +:+ "]".

Definition SprintfObjectives (m : gmap string float) : string :=
  "map["
  +:+ String.concat " "
        ((λ kv : string * float, kv.1 +:+ ":" +:+ FormatFloat kv.2)
           <$> sorted_entries m)
  +:+ "]".

(** [func (ms *MetricSpec) Hash() string]: the five [io.WriteString] calls
    feed the digest the concatenation of their arguments. *)
Definition Hash (ms : MetricSpec) : string :=
  MD5.hexdigest
    (Type_ ms +:+ Help ms +:+ SprintfStrings (Labels ms)
     +:+ SprintfFloats (Buckets ms) +:+ SprintfObjectives (Objectives ms)).

End fingerprint.

(** ** Collectors and handlers

    The collectors are prometheus objects; one constructor per constructor
    function that [buildHandler] calls, holding the options it passes. A
    [map[float64]float64] is a list of bindings whose keys are pairwise
    different for the float comparison [==]. *)
Inductive PromCollector :=
| NewCounter (name help : string)
| NewCounterVec (name help : string) (labels : list string)
| NewGauge (name help : string)
| NewGaugeVec (name help : string) (labels : list string)
| NewHistogram (name help : string) (buckets : list float)
| NewHistogramVec (name help : string) (buckets : list float)
    (labels : list string)
| NewSummary (name help : string) (objectives : list (float * float))
| NewSummaryVec (name help : string) (objectives : list (float * float))
    (labels : list string).

(** The eight handler types behind the [MetricHandler] interface. Their
    declarations are not among the sources; the composite literals of
    [buildHandler] ([&CounterHandler{spec, counter}]) show their two fields,
    the spec and the collector, which the methods [Spec()] and
    [Collector()] give back. *)
Inductive MetricHandler :=
| CounterHandler (spec : MetricSpec) (c : PromCollector)
| CounterVecHandler (spec : MetricSpec) (c : PromCollector)
| GaugeHandler (spec : MetricSpec) (c : PromCollector)
| GaugeVecHandler (spec : MetricSpec) (c : PromCollector)
| HistogramHandler (spec : MetricSpec) (c : PromCollector)
| HistogramVecHandler (spec : MetricSpec) (c : PromCollector)
| SummaryHandler (spec : MetricSpec) (c : PromCollector)
| SummaryVecHandler (spec : MetricSpec) (c : PromCollector).

Definition Spec (h : MetricHandler) : MetricSpec :=
  match h with
  | CounterHandler s _ | CounterVecHandler s _ | GaugeHandler s _
  | GaugeVecHandler s _ | HistogramHandler s _ | HistogramVecHandler s _
  | SummaryHandler s _ | SummaryVecHandler s _ => s
  end.

Definition Collector (h : MetricHandler) : PromCollector :=
  match h with
  | CounterHandler _ c | CounterVecHandler _ c | GaugeHandler _ c
  | GaugeVecHandler _ c | HistogramHandler _ c | HistogramVecHandler _ c
  | SummaryHandler _ c | SummaryVecHandler _ c => c
  end.

(** [objectives] of a summary collector, [None] for the other families. *)
Definition collectorObjectives (c : PromCollector)
  : option (list (float * float)) :=
  match c with
  | NewSummary _ _ o | NewSummaryVec _ _ o _ => Some o
  | _ => None
  end.

Definition defaultBuckets : list float :=
  [0.005; 0.01; 0.025; 0.05; 0.1; 0.25; 0.5; 1.0; 2.5; 5.0; 10.0]%float.

Definition defaultObjectives : list (float * float) :=
  [(0.5, 0.05); (0.9, 0.01); (0.99, 0.001)]%float.

(** [result[f] = value] on a [map[float64]float64]: keys are compared with
    [==], so that [+0] and [-0] are one key and a NaN is always a new one. *)
Fixpoint floatMapSet (f value : float) (m : list (float * float))
  : list (float * float) :=
  match m with
  | [] => [(f, value)]
  | (k, x) :: m' =>
      if PrimFloat.eqb k f then (f, value) :: m'
      else (k, x) :: floatMapSet f value m'
  end.

Definition floatMapGet (f : float) (m : list (float * float)) : option float :=
  snd <$> find (λ kx : float * float, PrimFloat.eqb kx.1 f) m.

(** The exposition surface: prometheus' default registerer, with the
    collectors' values. [promRegister] is [prometheus.Register] and
    [promUnregister] is [prometheus.Unregister]; [handlerHandle] stands for
    the [Handle] methods of the eight handler types, which update the
    handler's collector. *)
Class Exposition (Surface : Type) := {
  promRegister : PromCollector → Surface → Surface * option error;
  promUnregister : PromCollector → Surface → Surface * bool;
  handlerHandle : MetricHandler → Metric → Surface → Surface * option error;
}.

(** The registry [ireg] (its [handlers] map) together with the state of the
    exposition surface. *)
Record World (Surface : Type) := {
  handlers : gmap string MetricHandler;
  prom : Surface;
}.
Arguments handlers {Surface} w.
Arguments prom {Surface} w.

Inductive LogLine :=
| LogErrorRegistering (name : string) (err : error)
    (* logger.Printf("Error registering %s: %s", spec.Name, err) *)
| LogRegistered (name : string)
    (* logger.Printf("Registered %s", spec.Name) *)
| LogError (err : error)
    (* logger.Println(err) *)
| LogUnregistered (name : string).
    (* logger.Printf("Unregistered %s", name) *)

(** Modelled from the spec: [sliceSubStr] is called by [Reload] but its file
    is not among the sources; the comment at its call says "get names of
    metrics no longer present" and the specification has every previously
    known name that is absent from the incoming ones unregistered: the
    elements of the first slice that are not in the second. *)
Definition sliceSubStr (a b : list string) : list string :=
  filter (λ x, x ∉ b) a.

(** ** The registry ([registry.go]) *)
Section registry.
Context {SC : Strconv} {MO : MapOrder} {Surface : Type} {EX : Exposition Surface}.

#[local] Abbreviation World := (World Surface).

Definition NewRegistry (p : Surface) : World :=
  {| handlers := ∅; prom := p |}.

Definition IsEmpty (w : World) : bool :=
  bool_decide (size (handlers w) = 0%nat).

Definition doNames (w : World) : list string := (range (handlers w)).*1.

(** The inner loop of [validateLabels]:
    [for j := i + 1; j < n; j++ { if labels[i] == labels[j] {...} }],
    entered at [j] with [fuel = n - j] iterations to go. *)
Fixpoint validateLabels_inner (labels : list string) (li : string)
    (j fuel : nat) : option error :=
  match fuel with
  | O => None
  | S fuel' =>
      match labels !! j with
      | None => None
      | Some lj =>
          if decide (li = lj) then Some (ErrDuplicateLabel li)
          else validateLabels_inner labels li (S j) fuel'
      end
  end.

(** The outer loop, [for i := 0; i < n-1; i++], entered at [i] with
    [fuel = n - 1 - i] iterations to go. *)
Fixpoint validateLabels_outer (labels : list string) (i fuel : nat)
  : option error :=
  match fuel with
  | O => None
  | S fuel' =>
      match labels !! i with
      | None => None
      | Some li =>
          match validateMetric li with
          | Some err => Some err
          | None =>
              match validateLabels_inner labels li (S i)
                      (length labels - S i) with
              | Some err => Some err
              | None => validateLabels_outer labels (S i) fuel'
              end
          end
      end
  end.

(** [n - 1] is [-1] on the empty slice in Go and [0] here; the loop runs
    no iteration in both. *)
Definition validateLabels (labels : list string) : option error :=
  let n := length labels in
  validateLabels_outer labels 0 (n - 1).

(** The loop of [validateObjectives] over the entries in the order [range]
    visits them; [result] is the map built so far. *)
Fixpoint validateObjectives_loop (entries : list (string * float))
    (result : list (float * float)) : list (float * float) * option error :=
  match entries with
  | [] => (result, None)
  | (key, value) :: rest =>
      match ParseFloat key with
      | Err err => (result, Some err)
      | Ok f => validateObjectives_loop rest (floatMapSet f value result)
      end
  end.

Definition validateObjectives (objectives : gmap string float)
  : list (float * float) * option error :=
  validateObjectives_loop (range objectives) [].

Definition buildHandler (spec : MetricSpec) : result MetricHandler :=
  if decide (Type_ spec = "counter") then
    if decide (length (Labels spec) = 0%nat) then
      Ok (CounterHandler spec (NewCounter (Name spec) (Help spec)))
    else
      match validateLabels (Labels spec) with
      | Some err => Err err
      | None =>
          Ok (CounterVecHandler spec
                (NewCounterVec (Name spec) (Help spec) (Labels spec)))
      end
  else if decide (Type_ spec = "gauge") then
    if decide (length (Labels spec) = 0%nat) then
      Ok (GaugeHandler spec (NewGauge (Name spec) (Help spec)))
    else
      match validateLabels (Labels spec) with
      | Some err => Err err
      | None =>
          Ok (GaugeVecHandler spec
                (NewGaugeVec (Name spec) (Help spec) (Labels spec)))
      end
  else if decide (Type_ spec = "histogram") then
    let buckets :=
      if decide (0 < length (Buckets spec))%nat then Buckets spec
      else defaultBuckets in
    if decide (length (Labels spec) = 0%nat) then
      Ok (HistogramHandler spec (NewHistogram (Name spec) (Help spec) buckets))
    else
      match validateLabels (Labels spec) with
      | Some err => Err err
      | None =>
          Ok (HistogramVecHandler spec
                (NewHistogramVec (Name spec) (Help spec) buckets (Labels spec)))
      end
  else if decide (Type_ spec = "summary") then
    let objectives :=
      if decide (0 < size (Objectives spec))%nat then
        validateObjectives (Objectives spec)
      else (defaultObjectives, None) in
    match objectives with
    | (_, Some err) => Err err
    | (objectives, None) =>
        if decide (length (Labels spec) = 0%nat) then
          Ok (SummaryHandler spec
                (NewSummary (Name spec) (Help spec) objectives))
        else
          match validateLabels (Labels spec) with
          | Some err => Err err
          | None =>
              Ok (SummaryVecHandler spec
                    (NewSummaryVec (Name spec) (Help spec) objectives
                       (Labels spec)))
          end
    end
  else Err (ErrUnknownType (Name spec) (Type_ spec)).

(** The end of [register], from [prometheus.Register(handler.Collector())]
    on: both branches above reach it with their [handler]. *)
Definition register_finish (w : World) (spec : MetricSpec)
    (handler : MetricHandler) : World * option error :=
  match promRegister (Collector handler) (prom w) with
  | (p, Some err) => ({| handlers := handlers w; prom := p |}, Some err)
  | (p, None) =>
      ({| handlers := <[Name spec := handler]> (handlers w); prom := p |},
       None)
  end.

Definition register (w : World) (spec : MetricSpec) : World * option error :=
  match validateMetric (Name spec) with
  | Some err => (w, Some err)
  | None =>
      match handlers w !! Name spec with
      | Some handler =>
          (* spec with same name already exists *)
          if decide (Hash (Spec handler) = Hash spec) then (w, None)
          else
            match promUnregister (Collector handler) (prom w) with
            | (p, false) =>
                ({| handlers := handlers w; prom := p |},
                 Some (ErrReRegister (Name spec)))
            | (p, true) =>
                register_finish
                  {| handlers := delete (Name spec) (handlers w); prom := p |}
                  spec handler
            end
      | None =>
          match buildHandler spec with
          | Err err => (w, Some err)
          | Ok handler => register_finish w spec handler
          end
      end
  end.

Definition unregister (w : World) (name : string) : World * option error :=
  match handlers w !! name with
  | None => (w, Some (ErrUnregisterMissing name))
  | Some handler =>
      match promUnregister (Collector handler) (prom w) with
      | (p, false) =>
          ({| handlers := handlers w; prom := p |}, Some (ErrUnregister name))
      | (p, true) =>
          ({| handlers := delete name (handlers w); prom := p |}, None)
      end
  end.

(** The first loop of [Reload]: the world after it, the names appended to
    [newNames] and the lines logged. *)
Fixpoint Reload_register (w : World) (specs : list MetricSpec)
  : World * list string * list LogLine :=
  match specs with
  | [] => (w, [], [])
  | spec :: rest =>
      let '(w1, err) := register w spec in
      let line :=
        match err with
        | Some err => LogErrorRegistering (Name spec) err
        | None => LogRegistered (Name spec)
        end in
      let '(w2, newNames, log) := Reload_register w1 rest in
      (w2, Name spec :: newNames, line :: log)
  end.

(** The second loop of [Reload], over [unreg]. *)
Fixpoint Reload_unregister (w : World) (unreg : list string)
  : World * list LogLine :=
  match unreg with
  | [] => (w, [])
  | name :: rest =>
      let '(w1, err) := unregister w name in
      let line :=
        match err with
        | Some err => LogError err
        | None => LogUnregistered name
        end in
      let '(w2, log) := Reload_unregister w1 rest in
      (w2, line :: log)
  end.

Definition Reload (w : World) (specs : list MetricSpec)
  : World * list LogLine :=
  let names := doNames w in
  let '(w1, newNames, log1) := Reload_register w specs in
  (* get names of metrics no longer present and unregister them *)
  let unreg := sliceSubStr names newNames in
  let '(w2, log2) := Reload_unregister w1 unreg in
  (w2, log1 ++ log2).

Definition doHandle (w : World) (metric : Metric) : World * option error :=
  match handlers w !! MetricName metric with
  | None => (w, Some (ErrHandleMissing (MetricName metric)))
  | Some handler =>
      let '(p, err) := handlerHandle handler metric (prom w) in
      ({| handlers := handlers w; prom := p |}, err)
  end.

(** The registry invariant: a handler's key is its own spec name, and no
    two handlers of the map have the same spec name. *)
Definition keys_are_names (w : World) : Prop :=
  ∀ k h, handlers w !! k = Some h → Name (Spec h) = k.

Definition names_distinct (w : World) : Prop :=
  ∀ k1 k2 h1 h2,
    k1 ≠ k2 → handlers w !! k1 = Some h1 → handlers w !! k2 = Some h2 →
    Name (Spec h1) ≠ Name (Spec h2).

Definition registry_inv (w : World) : Prop :=
  keys_are_names w ∧ names_distinct w.

End registry.

(** ** The decoder worker ([DataParser] in [prom_multi_proc.go]) *)

(** [json.Unmarshal(data, &metrics)] for [metrics : []Metric]. *)
Class Json := {
  Unmarshal : string → result (list Metric);
}.

(** What a worker does that another goroutine can see. *)
Inductive Event :=
| EvCountMetric (status : string)      (* CountMetric(status) *)
| EvLog (err : error)                  (* logger.Printf("ERROR (DataParser): %s", err) *)
| EvSend (metric : Metric).            (* metricCh <- metric *)

Section decoder.
Context {JS : Json}.

(** [for i := 0; i < len(metrics); i++ { metricCh <- metrics[i] }], entered
    at [i] with [fuel = len(metrics) - i] iterations to go. *)
Fixpoint DataParser_send (metrics : list Metric) (i fuel : nat) : list Event :=
  match fuel with
  | O => []
  | S fuel' =>
      match metrics !! i with
      | None => []
      | Some metric => EvSend metric :: DataParser_send metrics (S i) fuel'
      end
  end.

(** One turn of the worker's loop, on the payload [data] it received from
    [dataCh]; [metrics] is a fresh variable in each turn. *)
Definition DataParser_turn (data : string) : list Event :=
  match Unmarshal data with
  | Err err => [EvCountMetric "error"; EvLog err]
  | Ok metrics => DataParser_send metrics 0 (length metrics)
  end.

(** The events of a worker that receives the payloads [inputs], in this
    order; the loop itself never returns. *)
Definition DataParser (inputs : list string) : list Event :=
  inputs ≫= DataParser_turn.

(** The updates a payload yields: the decoded batch, or nothing when it
    does not decode. *)
Definition decoded (data : string) : list Metric :=
  match Unmarshal data with
  | Ok metrics => metrics
  | Err _ => []
  end.

Definition sent (evs : list Event) : list Metric :=
  omap (λ ev, match ev with EvSend m => Some m | _ => None end) evs.

Definition counted (evs : list Event) : list string :=
  omap (λ ev, match ev with EvCountMetric status => Some status | _ => None end)
       evs.

End decoder.

(** ** Instances for the examples *)

(** [range] in the order of the map's list of entries. *)
#[local] Instance listOrder : MapOrder := {|
  range := λ V m, map_to_list m;
  range_perm := λ V m, reflexivity (map_to_list m);
|}.

Module Sample.

Definition digit (c : ascii) : option N :=
  let n := N_of_ascii c in
  if (48 <=? n)%N && (n <=? 57)%N then Some (n - 48)%N else None.

(** The number written by a non-empty string of decimal digits. *)
Fixpoint digits (s : list ascii) (acc : N) : option N :=
  match s with
  | [] => Some acc
  | c :: s' =>
      match digit c with
      | Some d => digits s' (10 * acc + d)%N
      | None => None
      end
  end.

Definition float_of_N (n : N) : float :=
  PrimFloat.of_uint63 (Uint63.of_Z (Z.of_N n)).

Definition syntaxError : error :=
  ErrLibrary "strconv.ParseFloat: parsing: invalid syntax".

(** [strconv.ParseFloat(s, 64)] on the decimals [ddd.ddd] of at most
    fifteen digits: the digits' number and the power of ten are below
    [2^53], both are binary64 values and their quotient is rounded once, to
    the nearest binary64 value. Go accepts more (signs, exponents,
    infinities, ...); here every other string is a syntax error, and the
    examples use none of those. *)
Definition parseDecimal (s : string) : result float :=
  let cs := String.list_ascii_of_string s in
  match list_find (λ c, c = "."%char) cs with
  | None => Err syntaxError
  | Some (i, _) =>
      let int_part := take i cs in
      let frac_part := drop (S i) cs in
      if bool_decide (int_part = []) || bool_decide (frac_part = [])
         || negb (bool_decide (length int_part + length frac_part ≤ 15)%nat)
      then Err syntaxError
      else
        match digits (int_part ++ frac_part) 0 with
        | None => Err syntaxError
        | Some m =>
            Ok (float_of_N m / float_of_N (10 ^ N.of_nat (length frac_part)))%float
        end
  end.

(** [%v] of the float literals that occur in the examples, as Go prints
    them; the empty string stands for the values outside this table. *)
Definition formatLiteral (f : float) : string :=
  let table : list (float * string) :=
    [ (0.001, "0.001"); (0.01, "0.01"); (0.05, "0.05"); (0.1, "0.1");
      (0.5, "0.5"); (0.9, "0.9"); (0.99, "0.99"); (1, "1") ]%float in
  default "" (snd <$> find (λ e : float * string, PrimFloat.eqb e.1 f) table).

#[local] Instance strconv : Strconv := {|
  FormatFloat := formatLiteral;
  ParseFloat := parseDecimal;
|}.

(** A surface that knows the names of the registered collectors: it
    refuses a name that is registered already, and unregisters only what is
    registered. *)
Definition collectorName (c : PromCollector) : string :=
  match c with
  | NewCounter n _ | NewCounterVec n _ _ | NewGauge n _ | NewGaugeVec n _ _
  | NewHistogram n _ _ | NewHistogramVec n _ _ _ | NewSummary n _ _
  | NewSummaryVec n _ _ _ => n
  end.

#[local] Instance surface : Exposition (gset string) := {|
  promRegister c s :=
    if decide (collectorName c ∈ s)
    then (s, Some (ErrLibrary "duplicate metrics collector registration attempted"))
    else ({[collectorName c]} ∪ s, None);
  promUnregister c s :=
    if decide (collectorName c ∈ s) then (s ∖ {[collectorName c]}, true)
    else (s, false);
  handlerHandle _ _ s := (s, None);
|}.

(** A decoder for the examples: it knows one payload. *)
Definition incMetric : Metric :=
  {| MetricName := "test_5_counter"; LabelValues := []; Method := "inc";
     Value := 0 |}.

Definition quote (s : string) : string :=
  String (ascii_of_nat 34) s +:+ String (ascii_of_nat 34) "".

Definition incPayload : string :=
  "[{" +:+ quote "name" +:+ ":" +:+ quote "test_5_counter" +:+ ","
  +:+ quote "method" +:+ ":" +:+ quote "inc" +:+ "}]".

#[local] Instance json : Json := {|
  Unmarshal data :=
    if decide (data = incPayload) then Ok [incMetric]
    else Err (ErrLibrary "invalid character")
|}.

(** Specs and worlds of the examples. *)
Definition counterOld : MetricSpec :=
  {| Type_ := "counter"; Name := "ab"; Help := "old help";
     Labels := []; Buckets := []; Objectives := ∅ |}.

Definition counterNew : MetricSpec :=
  {| Type_ := "counter"; Name := "ab"; Help := "new help";
     Labels := []; Buckets := []; Objectives := ∅ |}.

Definition oldHandler : MetricHandler :=
  CounterHandler counterOld (NewCounter "ab" "old help").

Definition badName : MetricSpec :=
  {| Type_ := "counter"; Name := "Bad"; Help := "h";
     Labels := []; Buckets := []; Objectives := ∅ |}.

Definition badLastLabel : MetricSpec :=
  {| Type_ := "counter"; Name := "ab"; Help := "h";
     Labels := ["ok"; "Bad Label"]; Buckets := []; Objectives := ∅ |}.

Definition summaryBadKey : MetricSpec :=
  {| Type_ := "summary"; Name := "ab"; Help := "h";
     Labels := []; Buckets := []; Objectives := {[ "abc" := 0.1%float ]} |}.

Definition summaryGood : MetricSpec :=
  {| Type_ := "summary"; Name := "lat"; Help := "h"; Labels := []; Buckets := [];
     Objectives := {[ "0.5" := 0.05%float; "0.9" := 0.01%float ]} |}.

Definition summaryDefault : MetricSpec :=
  {| Type_ := "summary"; Name := "lat"; Help := "h"; Labels := []; Buckets := [];
     Objectives := ∅ |}.

Definition world0 : World (gset string) :=
  @NewRegistry (gset string) ∅.

(** The registry after [counterOld] was registered. *)
Definition worldOld : World (gset string) :=
  {| handlers := {[ "ab" := oldHandler ]}; prom := {[ "ab" ]} |}.

(** A surface that never lets go of a collector ("residual references"). *)
Definition refusing : Exposition unit := {|
  promRegister _ s := (s, None);
  promUnregister _ s := (s, false);
  handlerHandle _ _ s := (s, None);
|}.

End Sample.

(** ** What the handlers and collectors were made with *)

(** The metric family of a handler type and whether it is the vector one. *)
Definition handlerType (h : MetricHandler) : string * bool :=
  match h with
  | CounterHandler _ _ => ("counter", false)
  | CounterVecHandler _ _ => ("counter", true)
  | GaugeHandler _ _ => ("gauge", false)
  | GaugeVecHandler _ _ => ("gauge", true)
  | HistogramHandler _ _ => ("histogram", false)
  | HistogramVecHandler _ _ => ("histogram", true)
  | SummaryHandler _ _ => ("summary", false)
  | SummaryVecHandler _ _ => ("summary", true)
  end.

Definition collectorType (c : PromCollector) : string * bool :=
  match c with
  | NewCounter _ _ => ("counter", false)
  | NewCounterVec _ _ _ => ("counter", true)
  | NewGauge _ _ => ("gauge", false)
  | NewGaugeVec _ _ _ => ("gauge", true)
  | NewHistogram _ _ _ => ("histogram", false)
  | NewHistogramVec _ _ _ _ => ("histogram", true)
  | NewSummary _ _ _ => ("summary", false)
  | NewSummaryVec _ _ _ _ => ("summary", true)
  end.

(** [Name] and [Help] of the options a collector was made with. *)
Definition optsName (c : PromCollector) : string :=
  match c with
  | NewCounter n _ | NewCounterVec n _ _ | NewGauge n _ | NewGaugeVec n _ _
  | NewHistogram n _ _ | NewHistogramVec n _ _ _ | NewSummary n _ _
  | NewSummaryVec n _ _ _ => n
  end.

Definition optsHelp (c : PromCollector) : string :=
  match c with
  | NewCounter _ h | NewCounterVec _ h _ | NewGauge _ h | NewGaugeVec _ h _
  | NewHistogram _ h _ | NewHistogramVec _ h _ _ | NewSummary _ h _
  | NewSummaryVec _ h _ _ => h
  end.

(** The label names of a vector collector, [None] for a scalar one. *)
Definition collectorLabels (c : PromCollector) : option (list string) :=
  match c with
  | NewCounterVec _ _ l | NewGaugeVec _ _ l | NewHistogramVec _ _ _ l
  | NewSummaryVec _ _ _ l => Some l
  | _ => None
  end.

(** The [Buckets] of a histogram collector, [None] for the other families. *)
Definition collectorBuckets (c : PromCollector) : option (list float) :=
  match c with
  | NewHistogram _ _ b | NewHistogramVec _ _ b _ => Some b
  | _ => None
  end.

(** ** The run loop ([Process] in [registry.go]) *)

(** What one turn of the [select] receives: a metric from [metricCh], or a
    value from [doneCh]. *)
Inductive Selected :=
| GotMetric (metric : Metric)
| GotDone (b : bool).

Inductive ProcessEvent :=
| PrStart                                   (* logger.Println("Starting processing data") *)
| PrCountMetric (status : string)           (* CountMetric(status) *)
| PrError (err : error) (metric : Metric).  (* logger.Printf("ERROR (Process): %s %+v\n", err, metric) *)

Section process.
Context {Surface : Type} {EX : Exposition Surface}.

(** The [for { select {...} }] of [Process] on the communications
    [selected], in the order the [select] takes them: the world after, the
    events, and what was left of [selected] when the loop returned ([None]
    when it did not return: the [select] is waiting). *)
Fixpoint Process_loop (w : World Surface) (selected : list Selected)
  : World Surface * list ProcessEvent * option (list Selected) :=
  match selected with
  | [] => (w, [], None)
  | GotDone _ :: rest => (w, [], Some rest)
  | GotMetric metric :: rest =>
      let '(w1, err) := doHandle w metric in
      let evs :=
        match err with
        | Some err => [PrCountMetric "error"; PrError err metric]
        | None => [PrCountMetric "ok"]
        end in
      let '(w2, evs', remaining) := Process_loop w1 rest in
      (w2, evs ++ evs', remaining)
  end.

Definition Process (w : World Surface) (selected : list Selected)
  : World Surface * list ProcessEvent * option (list Selected) :=
  let '(w', evs, remaining) := Process_loop w selected in
  (w', PrStart :: evs, remaining).

End process.

(** The statuses that a run loop counted. *)
Definition processCounted (evs : list ProcessEvent) : list string :=
  omap (λ ev, match ev with PrCountMetric status => Some status | _ => None end)
       evs.

(** ** The listener ([DataReader] in [prom_multi_proc.go]) *)

(** An accepted connection: the bytes that [io.Copy] put into the buffer
    before the end of the stream or a read error; the result of [io.Copy]
    is not looked at. *)
Record Conn := {
  connData : string;
  connReadErr : option error;
}.

Inductive ReaderEvent :=
| RdStart                              (* logger.Println("Starting listening on socket") *)
| RdCountMetric (status : string)      (* CountMetric(status) *)
| RdLog (err : error)                  (* logger.Printf("ERROR (DataReader): %s", err) *)
| RdSend (data : string)               (* dataCh <- buf.Bytes() *)
| RdClose.                             (* c.Close() *)

(** One turn of the accept loop, on the result of [ln.Accept()]. *)
Definition DataReader_turn (accepted : result Conn) : list ReaderEvent :=
  match accepted with
  | Err err => [RdCountMetric "error"; RdLog err]
  | Ok c => [RdSend (connData c); RdClose]
  end.

(** The events of the listener for the results [accepts] of its calls of
    [Accept]; the loop never returns. *)
Definition DataReader (accepts : list (result Conn)) : list ReaderEvent :=
  RdStart :: (accepts ≫= DataReader_turn).

Definition readerSent (evs : list ReaderEvent) : list string :=
  omap (λ ev, match ev with RdSend data => Some data | _ => None end) evs.

Definition readerCounted (evs : list ReaderEvent) : list string :=
  omap (λ ev, match ev with RdCountMetric status => Some status | _ => None end)
       evs.

(** The number of times [CountMetric] is called for a payload that went
    through the decoder and the run loop: once when it does not decode,
    once for each of its updates when it does. *)
Definition accounted {JS : Json} (data : string) : nat :=
  match Unmarshal data with
  | Ok metrics => length metrics
  | Err _ => 1
  end.

(** The same for a call of [Accept] of the listener: once when it fails. *)
Definition acceptAccounted {JS : Json} (accepted : result Conn) : nat :=
  match accepted with
  | Err _ => 1
  | Ok c => accounted (connData c)
  end.

(** The payloads of the connections that were accepted. *)
Definition acceptedData (accepts : list (result Conn)) : list string :=
  omap (λ accepted, match accepted with
                    | Ok c => Some (connData c)
                    | Err _ => None
                    end) accepts.

(** The errors of the calls of [Accept] that failed. *)
Definition acceptErrors (accepts : list (result Conn)) : list error :=
  omap (λ accepted, match accepted with
                    | Ok _ => None
                    | Err err => Some err
                    end) accepts.

Definition hexChars : list ascii :=
  String.list_ascii_of_string "0123456789abcdef".

(** ** The reload turn of [main] ([main.go], the goroutine that loads the
    metric configuration) *)

Inductive MainLine :=
| MlVersion                      (* logger.Println(versionStr()) *)
| MlLoading                      (* logger.Println("Loading metric configuration") *)
| MlLoadError (err : error)      (* logger.Printf("Error loading configuration: %s", err) *)
| MlLine (line : LogLine).

(** The line of [main] for a line of [Reload]: the error of a registration
    is logged without the spec's name. *)
Definition mainLine (line : LogLine) : LogLine :=
  match line with
  | LogErrorRegistering _ err => LogError err
  | _ => line
  end.

Section main.
Context {SC : Strconv} {MO : MapOrder} {Surface : Type} {EX : Exposition Surface}.

(** The loop over [specs] in [main]; [Register] is [register] with the lock
    taken, and an error is logged with [logger.Println(err)]. *)
Fixpoint main_register (w : World Surface) (specs : list MetricSpec)
  : World Surface * list string * list LogLine :=
  match specs with
  | [] => (w, [], [])
  | spec :: rest =>
      let '(w1, err) := register w spec in
      let line :=
        match err with
        | Some err => LogError err
        | None => LogRegistered (Name spec)
        end in
      let '(w2, newNames, log) := main_register w1 rest in
      (w2, Name spec :: newNames, line :: log)
  end.

(** The loop over [unreg] in [main]; [Unregister] is [unregister] with the
    lock taken. *)
Fixpoint main_unregister (w : World Surface) (unreg : list string)
  : World Surface * list LogLine :=
  match unreg with
  | [] => (w, [])
  | name :: rest =>
      let '(w1, err) := unregister w name in
      let line :=
        match err with
        | Some err => LogError err
        | None => LogUnregistered name
        end in
      let '(w2, log) := main_unregister w1 rest in
      (w2, line :: log)
  end.

(** One turn of the goroutine up to its call of [DataProcessor], on the
    result [loaded] of [LoadSpecs]. *)
Definition main_reload (w : World Surface) (loaded : result (list MetricSpec))
  : World Surface * list MainLine :=
  (* note beginning names of metrics *)
  let names := doNames w in
  match loaded with
  | Err err => (w, [MlVersion; MlLoading; MlLoadError err])
  | Ok specs =>
      let '(w1, newNames, log1) := main_register w specs in
      let unreg := sliceSubStr names newNames in
      let '(w2, log2) := main_unregister w1 unreg in
      (w2, MlVersion :: MlLoading :: (MlLine <$> log1 ++ log2))
  end.

End main.

(** ** Surfaces that know what is registered

    A surface on which the set of the registered collectors' names can be
    read, and is changed by a registration that succeeds and by an
    unregistration that succeeds, and by nothing else. *)
Class TrackedSurface (Surface : Type) {EX : Exposition Surface} := {
  registered : Surface → gset string;
  registered_promRegister c s :
    registered (promRegister c s).1
    = if (promRegister c s).2 is None then {[optsName c]} ∪ registered s
      else registered s;
  registered_promUnregister c s :
    registered (promUnregister c s).1
    = if (promUnregister c s).2 then registered s ∖ {[optsName c]}
      else registered s;
  registered_handlerHandle h m s :
    registered (handlerHandle h m s).1 = registered s;
}.

(** A tracked surface that lets go of every collector that is registered,
    and takes back a collector that it has just let go of. *)
Class ReleasingSurface (Surface : Type) {EX : Exposition Surface}
    {TS : TrackedSurface Surface} := {
  promUnregister_registered c s :
    optsName c ∈ registered s → (promUnregister c s).2 = true;
  promRegister_again c s :
    (promUnregister c s).2 = true →
    (promRegister c (promUnregister c s).1).2 = None;
}.

Section sync.
Context {Surface : Type} {EX : Exposition Surface} {TS : TrackedSurface Surface}.

(** The registry and the surface agree: a handler's key is the name of its
    spec and of its collector, and the names of the map are the names
    registered at the surface. *)
Definition in_sync (w : World Surface) : Prop :=
  (∀ k h, handlers w !! k = Some h →
          Name (Spec h) = k ∧ optsName (Collector h) = k) ∧
  registered (prom w) = dom (handlers w).

(** Every name of the map passes [validateMetric]. *)
Definition names_valid (w : World Surface) : Prop :=
  ∀ k, is_Some (handlers w !! k) → validateMetric k = None.

End sync.

(** ** More instances for the examples *)
Module MoreSamples.

(** [range] in the reverse order of the map's list of entries. *)
Definition reverseOrder : MapOrder := {|
  range := λ V m, reverse (map_to_list m);
  range_perm := λ V m, reverse_Permutation (map_to_list m);
|}.

(** A surface that unregisters whatever it is asked to and accepts no
    registration. *)
Definition closed : Exposition unit := {|
  promRegister _ s := (s, Some (ErrLibrary "descriptor is invalid"));
  promUnregister _ s := (s, true);
  handlerHandle _ _ s := (s, None);
|}.

Definition closedWorld : World unit :=
  {| handlers := {[ "ab" := Sample.oldHandler ]}; prom := () |}.

(** Two quantile keys for one float. *)
Definition summaryTwice : MetricSpec :=
  {| Type_ := "summary"; Name := "lat"; Help := "h"; Labels := []; Buckets := [];
     Objectives := {[ "0.5" := 0.05%float; "0.50" := 0.01%float ]} |}.

Definition gaugeVec : MetricSpec :=
  {| Type_ := "gauge"; Name := "temp"; Help := "t"; Labels := ["room"; "floor"];
     Buckets := []; Objectives := ∅ |}.

(** Two specs whose labels are rendered alike. *)
Definition twoLabels : MetricSpec :=
  {| Type_ := "counter"; Name := "ab"; Help := "h"; Labels := ["aa"; "bb cc"];
     Buckets := []; Objectives := ∅ |}.

Definition threeLabels : MetricSpec :=
  {| Type_ := "counter"; Name := "ab"; Help := "h"; Labels := ["aa"; "bb"; "cc"];
     Buckets := []; Objectives := ∅ |}.

Definition gaugeVecHandler : MetricHandler :=
  GaugeVecHandler gaugeVec (NewGaugeVec "temp" "t" ["room"; "floor"]).

Definition addMetric : Metric :=
  {| MetricName := "ab"; LabelValues := []; Method := "add"; Value := 1 |}.

Definition unknownMetric : Metric :=
  {| MetricName := "nope"; LabelValues := []; Method := "inc"; Value := 0 |}.

(** The surface of [Sample] is tracked and releasing: its state is the set
    of the registered names. *)
#[local] Instance tracked : @TrackedSurface (gset string) Sample.surface.
Proof.
  refine {| registered := λ s, s |}.
  - intros c s. simpl. by case_decide.
  - intros c s. simpl. by case_decide.
  - done.
Defined.

#[local] Instance releasing : @ReleasingSurface (gset string) Sample.surface tracked.
Proof.
  split.
  - intros c s Hin. simpl in *. by rewrite decide_True.
  - intros c s. simpl. case_decide; [| done]. intros _. simpl.
    rewrite decide_False; [done |].
    intros [_ Hn]%elem_of_difference. apply Hn. by apply elem_of_singleton.
Defined.

End MoreSamples.

(** * Properties *)

(** ** The digest on the test vectors of RFC 1321 *)
Example md5_empty : MD5.hexdigest "" = "d41d8cd98f00b204e9800998ecf8427e".
Proof. vm_compute. reflexivity. Qed.
Example md5_abc : MD5.hexdigest "abc" = "900150983cd24fb0d6963f7d28e17f72".
Proof. vm_compute. reflexivity. Qed.
Example md5_two_blocks :
  MD5.hexdigest
    "aaaaaaaaaaaaaaaaaaaaaaaaaaaaaaaaaaaaaaaaaaaaaaaaaaaaaaaaaaaaaaaaaaaaaaaaaaaaaaaaaaaaaaaaaaaaaaaaaaaa"
  = "36a92cc94a9e0fa21f625f8bfb007adf".
Proof. vm_compute. reflexivity. Qed.

(** ** Name validation on some names *)
Example validateMetric_ex1 : validateMetric "test_1_counter_vec" = None.
Proof. reflexivity. Qed.
Example validateMetric_ex2 : validateMetric "Now" = Some (ErrInvalidName "Now").
Proof. reflexivity. Qed.
Example validateMetric_ex3 : validateMetric "a" = Some (ErrInvalidName "a").
Proof. reflexivity. Qed.
Example validateMetric_ex4 : validateMetric "a_" = None.
Proof. reflexivity. Qed.
Example validateMetric_ex5 : validateMetric "9a" = Some (ErrInvalidName "9a").
Proof. reflexivity. Qed.

(** ** The matcher decides the language of a regular expression *)
Module RegexpFacts.

Lemma lang_cat_inv r1 r2 s :
  lang (Cat r1 r2) s → ∃ s1 s2, s = s1 ++ s2 ∧ lang r1 s1 ∧ lang r2 s2.
Proof. inversion 1; subst; eauto. Qed.

Lemma lang_alt_inv r1 r2 s : lang (Alt r1 r2) s → lang r1 s ∨ lang r2 s.
Proof. inversion 1; subst; eauto. Qed.

Lemma lang_class_inv rs s :
  lang (Class rs) s → ∃ c, s = [c] ∧ in_class c rs = true.
Proof. inversion 1; subst; eauto. Qed.

Lemma nullable_lang r : nullable r = true ↔ lang r [].
Proof.
  induction r as [| |rs|r1 IH1 r2 IH2|r1 IH1 r2 IH2|r IH]; simpl.
  - split; [done | inversion 1].
  - split; [constructor | done].
  - split; [done | inversion 1].
  - rewrite andb_true_iff, IH1, IH2. split.
    + intros [H1 H2]. by apply (lang_cat _ _ [] []).
    + intros (s1 & s2 & Heq & H1 & H2)%lang_cat_inv.
      symmetry in Heq. by apply app_eq_nil in Heq as [-> ->].
  - rewrite orb_true_iff, IH1, IH2. split.
    + intros [?|?]; [by apply lang_alt_l | by apply lang_alt_r].
    + intros [?|?]%lang_alt_inv; auto.
  - split; [constructor | done].
Qed.

Lemma lang_star_cons_inv r c s :
  lang (Star r) (c :: s) →
  ∃ s1 s2, s = s1 ++ s2 ∧ lang r (c :: s1) ∧ lang (Star r) s2.
Proof.
  intros H. remember (Star r) as r' eqn:Hr. remember (c :: s) as l eqn:Hl.
  induction H as [| | | | | |r0 s1 s2 H1 _ H2 IH2]; try discriminate.
  injection Hr as ->. destruct s1 as [|c' s1]; simpl in Hl.
  - by apply IH2.
  - injection Hl as -> <-. by exists s1, s2.
Qed.

Lemma deriv_lang c r s : lang (deriv c r) s ↔ lang r (c :: s).
Proof.
  revert s.
  induction r as [| |rs|r1 IH1 r2 IH2|r1 IH1 r2 IH2|r IH]; intros s; simpl.
  - split; inversion 1.
  - split; inversion 1.
  - destruct (in_class c rs) eqn:Hc; split; inversion 1; subst.
    + by constructor.
    + constructor.
    + congruence.
  - assert (Hcat : lang (Cat (deriv c r1) r2) s → lang (Cat r1 r2) (c :: s)).
    { intros (s1 & s2 & -> & H1 & H2)%lang_cat_inv.
      apply IH1 in H1. by apply (lang_cat _ _ (c :: s1) s2). }
    assert (Hinv : lang (Cat r1 r2) (c :: s) →
              lang (Cat (deriv c r1) r2) s ∨ (lang r1 [] ∧ lang (deriv c r2) s)).
    { intros (s1 & s2 & Heq & H1 & H2)%lang_cat_inv.
      destruct s1 as [|c' s1]; simpl in Heq.
      - subst s2. right. split; [done | by apply IH2].
      - injection Heq as <- ->. left. constructor; [by apply IH1 | done]. }
    destruct (nullable r1) eqn:Hn.
    + split.
      * intros [?|?]%lang_alt_inv; [auto |].
        apply (lang_cat _ _ [] (c :: s)); [by apply nullable_lang | by apply IH2].
      * intros [?|[_ ?]]%Hinv; [by apply lang_alt_l | by apply lang_alt_r].
    + split; [done |].
      intros [?|[Hnil _]]%Hinv; [done |].
      apply nullable_lang in Hnil. congruence.
  - split.
    + intros [?|?]%lang_alt_inv;
        [apply lang_alt_l; by apply IH1 | apply lang_alt_r; by apply IH2].
    + intros [?|?]%lang_alt_inv;
        [apply lang_alt_l; by apply IH1 | apply lang_alt_r; by apply IH2].
  - split.
    + intros (s1 & s2 & -> & H1 & H2)%lang_cat_inv.
      apply IH in H1. by apply (lang_star_app _ (c :: s1) s2).
    + intros (s1 & s2 & -> & H1 & H2)%lang_star_cons_inv.
      constructor; [by apply IH | done].
Qed.

Lemma matches_lang r s : matches r s = true ↔ lang r s.
Proof.
  revert r. induction s as [|c s IH]; intros r; simpl.
  - apply nullable_lang.
  - by rewrite IH, deriv_lang.
Qed.

(** A starred class is the strings over the class; with [+], the non-empty
    ones. *)
Lemma lang_star_class rs s :
  lang (Star (Class rs)) s ↔ forallb (λ c, in_class c rs) s = true.
Proof.
  split.
  - intros H. remember (Star (Class rs)) as r eqn:Hr.
    induction H as [| | | | | |r0 s1 s2 H1 _ H2 IH2]; try discriminate; [done |].
    injection Hr as ->. apply lang_class_inv in H1 as (c & -> & Hc). simpl.
    rewrite andb_true_iff. auto.
  - induction s as [|c s IH]; simpl; [constructor |].
    intros [Hc Hs]%andb_true_iff.
    apply (lang_star_app _ [c] s); [by constructor | auto].
Qed.

Lemma lang_plus_class rs s :
  lang (Plus (Class rs)) s ↔
  ∃ c s', s = c :: s' ∧ in_class c rs = true
          ∧ forallb (λ c, in_class c rs) s' = true.
Proof.
  unfold Plus. split.
  - intros (s1 & s2 & -> & H1 & H2)%lang_cat_inv.
    apply lang_class_inv in H1 as (c & -> & Hc).
    apply lang_star_class in H2. by eexists _, _.
  - intros (c & s' & -> & Hc & Hs).
    apply (lang_cat _ _ [c] s'); [by constructor | by apply lang_star_class].
Qed.

End RegexpFacts.

(** ** Names *)

Lemma is_lower_ident_char c : is_lower c = true → is_ident_char c = true.
Proof. unfold is_lower, is_ident_char, lowerClass. by intros ->. Qed.

Lemma in_wordClass c : in_class c wordClass = is_ident_char c.
Proof. by destruct c as [[] [] [] [] [] [] [] []]. Qed.

Lemma forallb_wordClass l :
  forallb (λ c, in_class c wordClass) l = forallb is_ident_char l.
Proof.
  induction l as [|c l IH]; cbn [forallb]; [done |]. by rewrite in_wordClass, IH.
Qed.

(** What the pattern of [metricRe] matches: a lowercase letter followed by
    at least one more character, all of them identifier characters. *)
Lemma MatchString_metricRe s :
  MatchString metricRe s = true ↔
  ∃ c rest, String.list_ascii_of_string s = c :: rest ∧ is_lower c = true
            ∧ rest ≠ [] ∧ forallb is_ident_char rest = true.
Proof.
  unfold MatchString. rewrite RegexpFacts.matches_lang.
  generalize (String.list_ascii_of_string s) as l. intros l.
  unfold metricRe. split.
  - intros (s1 & s2 & -> & H1 & H2)%RegexpFacts.lang_cat_inv.
    apply RegexpFacts.lang_plus_class in H1 as (c & s1' & -> & Hc & Hs1).
    apply RegexpFacts.lang_plus_class in H2 as (d & s2' & -> & Hd & Hs2).
    exists c, (s1' ++ d :: s2'). split_and!; [done | done | by destruct s1' |].
    rewrite forallb_app. simpl. rewrite <- in_wordClass, Hd. simpl.
    apply andb_true_iff. split.
    + apply forallb_forall. intros x Hx.
      apply is_lower_ident_char. unfold is_lower.
      by eapply forallb_forall in Hs1.
    + by rewrite <- forallb_wordClass.
  - intros (c & rest & -> & Hc & Hne & Hrest).
    destruct rest as [|d rest]; [done |]. simpl in Hrest.
    apply andb_true_iff in Hrest as [Hd Hrest].
    apply (lang_cat _ _ [c] (d :: rest)).
    + apply RegexpFacts.lang_plus_class. by exists c, [].
    + apply RegexpFacts.lang_plus_class. exists d, rest.
      rewrite in_wordClass, forallb_wordClass. by split_and!.
Qed.

Lemma validateMetric_None name :
  validateMetric name = None ↔ MatchString metricRe name = true.
Proof. unfold validateMetric. by destruct (MatchString _ _). Qed.

Lemma length_list_ascii_of_string s :
  length (String.list_ascii_of_string s) = String.length s.
Proof. induction s; simpl; congruence. Qed.

(** C4 (as stated, refuted): a single lowercase letter is in the identifier
    grammar, and name validation rejects it. *)
Lemma validateMetric_single_letter :
  identifier "a" = true ∧ validateMetric "a" = Some (ErrInvalidName "a").
Proof. split; reflexivity. Qed.

(** C4 (amended): name validation accepts a string exactly when it is in
    the identifier grammar (only lowercase letters, digits and underscores,
    starting with a lowercase letter) and has at least two characters;
    single-letter names are rejected. *)
Theorem validateMetric_accepts name :
  validateMetric name = None ↔
  identifier name = true ∧ (2 ≤ String.length name)%nat.
Proof.
  rewrite validateMetric_None, MatchString_metricRe.
  unfold identifier. rewrite <- length_list_ascii_of_string.
  destruct (String.list_ascii_of_string name) as [|c rest]; simpl.
  - split; [by intros (? & ? & ? & _) | by intros [? _]].
  - rewrite andb_true_iff. split.
    + intros (c' & rest' & [= <- <-] & Hc & Hne & Hrest).
      split; [done |]. destruct rest; [done | simpl; lia].
    + intros [[Hc Hrest] Hlen]. exists c, rest.
      split_and!; [done | done | | done].
      intros ->. simpl in Hlen. lia.
Qed.

(** ** The fingerprint *)

(** C8: the fingerprint is a function of the type, help, labels, buckets
    and objectives of a spec and of nothing else: two specs that agree on
    these five fields have the same fingerprint, whatever their names. *)
Theorem Hash_five_fields {SC : Strconv} (a b : MetricSpec) :
  Type_ a = Type_ b → Help a = Help b → Labels a = Labels b →
  Buckets a = Buckets b → Objectives a = Objectives b →
  Hash a = Hash b.
Proof. unfold Hash. by intros -> -> -> -> ->. Qed.

Lemma Hash_five_fields_witness :
  let a := {| Type_ := "counter"; Name := "req_total"; Help := "x";
              Labels := ["one"; "two"]; Buckets := []; Objectives := ∅ |} in
  let b := {| Type_ := "counter"; Name := "other_total"; Help := "x";
              Labels := ["one"; "two"]; Buckets := []; Objectives := ∅ |} in
  Name a ≠ Name b ∧ @Hash Sample.strconv a = @Hash Sample.strconv b.
Proof.
  split; [discriminate |].
  apply (@Hash_five_fields Sample.strconv); reflexivity.
Defined.

Example Hash_example :
  @Hash Sample.strconv
    {| Type_ := "counter"; Name := "ab"; Help := "old help";
       Labels := []; Buckets := []; Objectives := ∅ |}
  = "f5a59d0d471b2609ba82eae7deb410d9".
Proof. vm_compute. reflexivity. Qed.

(** ** The registry *)
Section registry_facts.
Context {SC : Strconv} {MO : MapOrder} {Surface : Type} {EX : Exposition Surface}.
Implicit Types (w : World Surface) (spec : MetricSpec) (h : MetricHandler).

Lemma buildHandler_Spec spec h : buildHandler spec = Ok h → Spec h = spec.
Proof.
  unfold buildHandler. intros Hb.
  repeat (case_decide || case_match); by simplify_eq.
Qed.

Lemma names_distinct_of_keys w : keys_are_names w → names_distinct w.
Proof.
  intros Hk k1 k2 h1 h2 Hne H1 H2.
  by rewrite (Hk _ _ H1), (Hk _ _ H2).
Qed.

Lemma registry_inv_keys w : registry_inv w ↔ keys_are_names w.
Proof. split; [by intros [? _] | split; auto using names_distinct_of_keys]. Qed.

Lemma register_finish_keys w spec h :
  keys_are_names w → Name (Spec h) = Name spec →
  keys_are_names (register_finish w spec h).1.
Proof.
  intros Hk Hn. unfold register_finish.
  destruct (promRegister _ _) as [p [err|]]; simpl; [done |].
  intros k h'; simpl. rewrite lookup_insert. case_decide; naive_solver.
Qed.

Lemma register_keys w spec :
  keys_are_names w → keys_are_names (register w spec).1.
Proof.
  intros Hk. unfold register.
  destruct (validateMetric _); [done |].
  destruct (handlers w !! Name spec) as [h|] eqn:Hl.
  - case_decide; [done |].
    destruct (promUnregister _ _) as [p []]; [| done].
    apply register_finish_keys; [| by apply Hk].
    intros k h'. simpl. rewrite lookup_delete. case_decide; [done | apply Hk].
  - destruct (buildHandler spec) as [h|err] eqn:Hb; [| done].
    apply register_finish_keys; [done |]. by rewrite (buildHandler_Spec _ _ Hb).
Qed.

Lemma unregister_keys w name :
  keys_are_names w → keys_are_names (unregister w name).1.
Proof.
  intros Hk. unfold unregister.
  destruct (handlers w !! name) as [h|]; [| done].
  destruct (promUnregister _ _) as [p []]; [| done].
  intros k h'. simpl. rewrite lookup_delete. case_decide; [done | apply Hk].
Qed.

Lemma Reload_register_keys w specs :
  keys_are_names w → keys_are_names (Reload_register w specs).1.1.
Proof.
  revert w. induction specs as [|spec rest IH]; intros w Hk; simpl; [done |].
  pose proof (register_keys w spec Hk) as Hk1.
  destruct (register w spec) as [w1 err].
  specialize (IH w1 Hk1). by destruct (Reload_register w1 rest) as [[w2 ?] ?].
Qed.

Lemma Reload_unregister_keys w unreg :
  keys_are_names w → keys_are_names (Reload_unregister w unreg).1.
Proof.
  revert w. induction unreg as [|name rest IH]; intros w Hk; simpl; [done |].
  pose proof (unregister_keys w name Hk) as Hk1.
  destruct (unregister w name) as [w1 err].
  specialize (IH w1 Hk1). by destruct (Reload_unregister w1 rest) as [w2 ?].
Qed.

Lemma Reload_keys w specs :
  keys_are_names w → keys_are_names (Reload w specs).1.
Proof.
  intros Hk. unfold Reload.
  pose proof (Reload_register_keys w specs Hk) as Hk1.
  destruct (Reload_register w specs) as [[w1 newNames] log1].
  pose proof (Reload_unregister_keys w1 (sliceSubStr (doNames w) newNames) Hk1)
    as Hk2.
  by destruct (Reload_unregister w1 _) as [w2 log2].
Qed.

Lemma doHandle_handlers w metric :
  handlers (doHandle w metric).1 = handlers w.
Proof.
  unfold doHandle. destruct (handlers w !! _); [| done].
  by destruct (handlerHandle _ _ _).
Qed.

(** C9: the registry invariant (a handler's key is its own spec name; no
    two handlers of the map have the same spec name) is preserved by
    register, unregister, Reload and Handle. *)
Theorem registry_inv_preserved w spec name specs metric :
  registry_inv w →
  registry_inv (register w spec).1 ∧
  registry_inv (unregister w name).1 ∧
  registry_inv (Reload w specs).1 ∧
  registry_inv (doHandle w metric).1.
Proof.
  rewrite !registry_inv_keys. intros Hk. split_and!.
  - by apply register_keys.
  - by apply unregister_keys.
  - by apply Reload_keys.
  - unfold keys_are_names. rewrite doHandle_handlers. apply Hk.
Qed.

Lemma registry_inv_NewRegistry (p : Surface) : registry_inv (NewRegistry p).
Proof. apply registry_inv_keys. intros k h; simpl. by rewrite lookup_empty. Qed.

(** A name that is not valid is refused before the map is read. *)
Lemma register_invalid_name w spec err :
  validateMetric (Name spec) = Some err → register w spec = (w, Some err).
Proof. intros Hv. unfold register. by rewrite Hv. Qed.

(** C5: unregister needs a handler under the name: without one it returns
    an error and changes nothing; when the surface refuses to unregister
    the collector it returns an error and the map keeps the handler; the
    entry is removed exactly when the surface unregistered the collector. *)
Theorem unregister_spec w name :
  (handlers w !! name = None →
     unregister w name = (w, Some (ErrUnregisterMissing name))) ∧
  (∀ h, handlers w !! name = Some h →
     (promUnregister (Collector h) (prom w)).2 = false →
     (unregister w name).2 = Some (ErrUnregister name) ∧
     handlers (unregister w name).1 = handlers w) ∧
  (∀ h, handlers w !! name = Some h →
     (promUnregister (Collector h) (prom w)).2 = true →
     (unregister w name).2 = None ∧
     handlers (unregister w name).1 = delete name (handlers w)) ∧
  ((unregister w name).2 ≠ None →
     handlers (unregister w name).1 = handlers w).
Proof.
  unfold unregister. split_and!.
  - by intros ->.
  - intros h -> Hp. by destruct (promUnregister _ _) as [p []]; simplify_eq/=.
  - intros h -> Hp. by destruct (promUnregister _ _) as [p []]; simplify_eq/=.
  - destruct (handlers w !! name) as [h|]; [| done].
    by destruct (promUnregister _ _) as [p []].
Qed.

(** C6: registering a spec whose fingerprint is the one of the handler
    stored under its name succeeds and changes nothing: the names and the
    stored handler, with its collector, are what they were. *)
Theorem register_same_fingerprint w spec h :
  validateMetric (Name spec) = None →
  handlers w !! Name spec = Some h →
  Hash (Spec h) = Hash spec →
  register w spec = (w, None).
Proof.
  intros Hv Hl Hh. unfold register. rewrite Hv, Hl. by case_decide.
Qed.

(** A first registration under a free name stores a handler of the spec, so
    that registering the spec again is the case above. *)
Lemma register_fresh w spec w' :
  handlers w !! Name spec = None →
  register w spec = (w', None) →
  validateMetric (Name spec) = None ∧
  ∃ h, buildHandler spec = Ok h ∧ handlers w' = <[Name spec := h]> (handlers w).
Proof.
  unfold register. intros Hl.
  destruct (validateMetric _); [done |]. rewrite Hl.
  destruct (buildHandler spec) as [h|]; [| done].
  unfold register_finish. destruct (promRegister _ _) as [p [e|]]; [done |].
  intros [= <-]. eauto.
Qed.

Lemma register_twice w spec w' :
  handlers w !! Name spec = None →
  register w spec = (w', None) →
  register w' spec = (w', None).
Proof.
  intros Hl Hr.
  destruct (register_fresh _ _ _ Hl Hr) as (Hv & h & Hb & Hm).
  apply (register_same_fingerprint _ _ h); [done | |].
  - by rewrite Hm, lookup_insert_eq.
  - by rewrite (buildHandler_Spec _ _ Hb).
Qed.

(** C1 (what the code does): when the stored handler's fingerprint differs
    from the spec's and the surface accepts to unregister and to register
    again, [register] succeeds with the old handler stored back under the
    name: no handler is built from the new spec. *)
Theorem register_changed_keeps_old w spec h :
  validateMetric (Name spec) = None →
  handlers w !! Name spec = Some h →
  Hash (Spec h) ≠ Hash spec →
  (register w spec).2 = None →
  handlers (register w spec).1 = handlers w ∧
  handlers (register w spec).1 !! Name spec = Some h.
Proof.
  intros Hv Hl Hh. unfold register. rewrite Hv, Hl.
  case_decide; [done |].
  destruct (promUnregister _ _) as [p []]; [| done].
  unfold register_finish. simpl.
  destruct (promRegister _ _) as [p' [e|]]; [done |]. simpl. intros _.
  rewrite insert_delete_eq, insert_id by done. done.
Qed.

(** *** Reload *)

Lemma elem_of_doNames w k : k ∈ doNames w ↔ is_Some (handlers w !! k).
Proof.
  unfold doNames. rewrite (range_perm _ (handlers w)).
  rewrite list_elem_of_fmap. split.
  - intros ([k' h] & -> & Hin). apply elem_of_map_to_list in Hin. by eexists.
  - intros [h Hl]. exists (k, h). by rewrite elem_of_map_to_list.
Qed.

Lemma NoDup_doNames w : NoDup (doNames w).
Proof.
  unfold doNames. rewrite (range_perm _ (handlers w)).
  apply NoDup_fst_map_to_list.
Qed.

Lemma elem_of_sliceSubStr a b k : k ∈ sliceSubStr a b ↔ k ∈ a ∧ k ∉ b.
Proof. unfold sliceSubStr. rewrite list_elem_of_filter. tauto. Qed.

Lemma NoDup_sliceSubStr a b : NoDup a → NoDup (sliceSubStr a b).
Proof. apply NoDup_filter. Qed.

Lemma register_finish_other w spec h k :
  k ≠ Name spec →
  handlers (register_finish w spec h).1 !! k = handlers w !! k.
Proof.
  intros Hne. unfold register_finish.
  destruct (promRegister _ _) as [p [err|]]; simpl; [done |].
  by rewrite lookup_insert_ne.
Qed.

(** [register] reads and writes the map at the spec's name only. *)
Lemma register_other w spec k :
  k ≠ Name spec → handlers (register w spec).1 !! k = handlers w !! k.
Proof.
  intros Hne. unfold register.
  destruct (validateMetric _); [done |].
  destruct (handlers w !! Name spec) as [h|].
  - case_decide; [done |].
    destruct (promUnregister _ _) as [p []]; [| done].
    rewrite register_finish_other by done. simpl. by rewrite lookup_delete_ne.
  - destruct (buildHandler spec); [| done]. by apply register_finish_other.
Qed.

(** A registration that succeeds leaves a handler under the spec's name. *)
Lemma register_ok_lookup w spec :
  (register w spec).2 = None → is_Some (handlers (register w spec).1 !! Name spec).
Proof.
  unfold register. destruct (validateMetric _); [done |].
  destruct (handlers w !! Name spec) as [h|] eqn:Hl.
  - case_decide; [simpl; rewrite Hl; by eauto |].
    destruct (promUnregister _ _) as [p []]; [| done].
    unfold register_finish. destruct (promRegister _ _) as [p' [e|]]; [done |].
    simpl. by rewrite lookup_insert_eq.
  - destruct (buildHandler spec); [| done].
    unfold register_finish. destruct (promRegister _ _) as [p' [e|]]; [done |].
    simpl. by rewrite lookup_insert_eq.
Qed.

(** A registration that errs adds no name to the map. *)
Lemma register_err_lookup w spec k :
  (register w spec).2 ≠ None →
  is_Some (handlers (register w spec).1 !! k) → is_Some (handlers w !! k).
Proof.
  unfold register. destruct (validateMetric _); [done |].
  destruct (handlers w !! Name spec) as [h|].
  - case_decide; [done |].
    destruct (promUnregister _ _) as [p []]; [| done].
    unfold register_finish. destruct (promRegister _ _) as [p' [e|]]; [| done].
    simpl. intros _. rewrite lookup_delete. by case_decide.
  - destruct (buildHandler spec); [| done].
    unfold register_finish. by destruct (promRegister _ _) as [p' [e|]].
Qed.

(** The names that the first loop of [Reload] keeps are the names of all
    the incoming specs, in their order. *)
Lemma Reload_register_newNames w specs :
  (Reload_register w specs).1.2 = Name <$> specs.
Proof.
  revert w. induction specs as [|spec rest IH]; intros w; simpl; [done |].
  destruct (register w spec) as [w1 err]. specialize (IH w1).
  destruct (Reload_register w1 rest) as [[w2 names] log]. simpl in *.
  by rewrite IH.
Qed.

Lemma Reload_register_other w specs k :
  k ∉ Name <$> specs →
  handlers (Reload_register w specs).1.1 !! k = handlers w !! k.
Proof.
  revert w. induction specs as [|spec rest IH]; intros w Hk; simpl; [done |].
  apply not_elem_of_cons in Hk as [Hne Hk].
  pose proof (register_other w spec k Hne) as Hr.
  destruct (register w spec) as [w1 err]. specialize (IH w1 Hk).
  destruct (Reload_register w1 rest) as [[w2 names] log]. simpl in *.
  by rewrite IH.
Qed.

(** A name in the map after the first loop was there before the loop or
    was registered by it. *)
Lemma Reload_register_lookup w specs k :
  is_Some (handlers (Reload_register w specs).1.1 !! k) →
  is_Some (handlers w !! k) ∨ LogRegistered k ∈ (Reload_register w specs).2.
Proof.
  revert w. induction specs as [|spec rest IH]; intros w; simpl; [by left |].
  pose proof (register_err_lookup w spec k) as Herr.
  pose proof (register_other w spec k) as Hother.
  destruct (register w spec) as [w1 e]. specialize (IH w1).
  destruct (Reload_register w1 rest) as [[w2 names] log]. simpl in *.
  intros [Hs|Hin]%IH; [| right; by right].
  destruct e as [e|]; [left; by apply Herr |].
  destruct (decide (k = Name spec)) as [->|Hne]; [right; by left |].
  left. by rewrite <- Hother.
Qed.

Lemma Reload_register_log w specs err :
  LogError err ∉ (Reload_register w specs).2.
Proof.
  revert w. induction specs as [|spec rest IH]; intros w; simpl.
  - apply not_elem_of_nil.
  - destruct (register w spec) as [w1 e]. specialize (IH w1).
    destruct (Reload_register w1 rest) as [[w2 names] log]. simpl in *.
    apply not_elem_of_cons. split; [by destruct e | done].
Qed.

(** The second loop reports a refused unregistration only for a name of
    its list. *)
Lemma Reload_unregister_log w unreg k :
  LogError (ErrUnregister k) ∈ (Reload_unregister w unreg).2 → k ∈ unreg.
Proof.
  revert w. induction unreg as [|name rest IH]; intros w; simpl.
  - by intros ?%elem_of_nil.
  - destruct (unregister w name) as [w1 e] eqn:Hu. specialize (IH w1).
    destruct (Reload_unregister w1 rest) as [w2 log]. simpl in *.
    intros [Heq|Hin]%elem_of_cons; [| by right; apply IH].
    destruct e as [e|]; [| done]. injection Heq as <-.
    unfold unregister in Hu.
    destruct (handlers w !! name); [| by simplify_eq].
    destruct (promUnregister _ _) as [p []]; simplify_eq. by left.
Qed.

(** After the second loop a name holds a handler exactly when it held one
    before and either was not in the list or was refused by the surface. *)
Lemma Reload_unregister_lookup w unreg k :
  NoDup unreg →
  is_Some (handlers (Reload_unregister w unreg).1 !! k) ↔
  is_Some (handlers w !! k) ∧
  (k ∉ unreg ∨ LogError (ErrUnregister k) ∈ (Reload_unregister w unreg).2).
Proof.
  revert w. induction unreg as [|name rest IH]; intros w Hnd; simpl.
  - split; [intros ?; split; [done | left; apply not_elem_of_nil] | tauto].
  - apply NoDup_cons in Hnd as [Hnotin Hnd].
    pose proof (Reload_unregister_log (unregister w name).1 rest k) as Hlog.
    specialize (IH (unregister w name).1 Hnd).
    unfold unregister in *.
    destruct (handlers w !! name) as [h|] eqn:Hl; simpl in *.
    + destruct (promUnregister _ _) as [p []]; simpl in *;
        destruct (Reload_unregister _ rest) as [w2 log]; simpl in *;
        rewrite IH, not_elem_of_cons, elem_of_cons.
      * rewrite lookup_delete. case_decide as Hk.
        -- subst k. split; [by intros [[? ?] _] |].
           intros [_ [[? _]|[?|Hin]]]; [done | done |]. by apply Hlog in Hin.
        -- split; [intros [? [?|?]]; eauto | ].
           intros [? [[_ ?]|[?|?]]]; eauto. done.
      * split.
        -- intros [? [?|?]]; split; eauto.
           destruct (decide (k = name)) as [->|]; eauto.
        -- intros [? [[_ ?]|[[= ->]|?]]]; eauto.
    + destruct (Reload_unregister _ rest) as [w2 log]; simpl in *.
      rewrite IH, not_elem_of_cons, elem_of_cons. split.
      * intros [Hs [?|?]]; split; eauto.
        left. split; [| done]. intros ->. rewrite Hl in Hs. by destruct Hs.
      * intros [? [[_ ?]|[?|?]]]; eauto. done.
Qed.

(** C2 (amended): after reload(A) then reload(B), names() is made of the
    names of B that hold a handler when B's registrations are over (each
    of them was registered by reload(B) or was left by reload(A)), together
    with the names left by reload(A) that are not names of B and whose
    unregistration the surface refused; the names that the diff keeps are
    the names of all the incoming specs, those whose registration errored
    included. *)
Theorem Reload_names w (A B : list MetricSpec) :
  let w1 := (Reload w A).1 in
  let registered := (Reload_register w1 B).1.1 in
  let kept := (Reload_register w1 B).1.2 in
  let w2 := (Reload w1 B).1 in
  let log := (Reload w1 B).2 in
  kept = Name <$> B ∧
  (∀ n, n ∈ doNames w2 ↔
        (n ∈ kept ∧ n ∈ doNames registered) ∨
        ((n ∉ kept) ∧ n ∈ doNames w1 ∧ LogError (ErrUnregister n) ∈ log)) ∧
  (∀ n, n ∈ doNames registered → n ∈ doNames w1 ∨ LogRegistered n ∈ log).
Proof.
  intros w1 registered kept w2 log.
  assert (Hkept : kept = Name <$> B) by apply Reload_register_newNames.
  split; [done |]. split; last first.
  { intros n. rewrite !elem_of_doNames.
    intros [?|Hin]%Reload_register_lookup; [by left | right].
    subst log. unfold Reload.
    destruct (Reload_register w1 B) as [[wr names] log1].
    destruct (Reload_unregister wr _) as [w2' log2]. simpl in *.
    apply elem_of_app. by left. }
  intros n.
  pose proof (Reload_register_other w1 B n) as Hother.
  pose proof (Reload_register_log w1 B (ErrUnregister n)) as Hlog1.
  subst registered kept w2 log. unfold Reload. rewrite Hkept in *.
  destruct (Reload_register w1 B) as [[wr names] log1]. simpl in *. subst names.
  pose proof (Reload_unregister_lookup wr
                (sliceSubStr (doNames w1) (Name <$> B)) n
                (NoDup_sliceSubStr _ _ (NoDup_doNames w1))) as Hun.
  destruct (Reload_unregister wr _) as [w2 log2]. simpl in *.
  rewrite !elem_of_doNames, Hun, elem_of_sliceSubStr, elem_of_doNames,
    elem_of_app.
  destruct (decide (n ∈ Name <$> B)) as [Hin|Hnin].
  - split; [intros [? _]; by left | ].
    intros [[_ ?]|[? _]]; [| done]. split; [done |]. left. tauto.
  - rewrite (Hother Hnin). split.
    + intros [Hs [Hno|?]]; [exfalso; apply Hno; by split | right; auto].
    + intros [[? _]|(_ & Hs & [?|?])]; try done. split; auto.
Qed.

End registry_facts.

(** ** Labels *)

Lemma validateLabels_inner_None labels li j fuel :
  j + fuel = length labels →
  validateLabels_inner labels li j fuel = None ↔ li ∉ drop j labels.
Proof.
  revert j. induction fuel as [|fuel IH]; intros j Hlen; simpl.
  - rewrite drop_ge by lia. split; [intros _; apply not_elem_of_nil | done].
  - destruct (labels !! j) as [lj|] eqn:Hj.
    + rewrite (drop_S _ _ _ Hj), not_elem_of_cons. case_decide.
      * split; [done | by intros [? _]].
      * rewrite IH by lia. tauto.
    + apply lookup_ge_None in Hj. lia.
Qed.

Lemma validateLabels_outer_None labels i fuel :
  i + fuel + 1 = length labels →
  validateLabels_outer labels i fuel = None ↔
  (∀ k lk, i ≤ k < i + fuel → labels !! k = Some lk → validateMetric lk = None)
  ∧ NoDup (drop i labels).
Proof.
  revert i. induction fuel as [|fuel IH]; intros i Hlen; simpl.
  - destruct (labels !! i) as [li|] eqn:Hi;
      [| apply lookup_ge_None in Hi; lia].
    rewrite (drop_S _ _ _ Hi), (drop_ge _ (S i)) by lia.
    split; [intros _ | done]. split; [intros; lia |].
    apply NoDup_singleton.
  - destruct (labels !! i) as [li|] eqn:Hi;
      [| apply lookup_ge_None in Hi; lia].
    rewrite (drop_S _ _ _ Hi), NoDup_cons.
    destruct (validateMetric li) as [err|] eqn:Hv.
    { split; [done |]. intros [Hall _].
      specialize (Hall i li). rewrite Hv in Hall. discriminate Hall; [lia | done]. }
    pose proof (validateLabels_inner_None labels li (S i) (length labels - S i))
      as Hinner.
    destruct (validateLabels_inner _ _ _ _) as [err|].
    { split; [done |]. intros [_ [Hnotin _]].
      assert (Some err = None) as [=]. apply Hinner; [lia | done]. }
    rewrite IH by lia. split.
    + intros [Hall Hnd]. split_and!; [| apply Hinner; [lia | done] | done].
      intros k lk Hk Hlk. destruct (decide (k = i)) as [->|]; [congruence |].
      apply (Hall k); [lia | done].
    + intros [Hall [_ Hnd]]. split; [| done].
      intros k lk Hk. apply Hall. lia.
Qed.

(** What [validateLabels] accepts: the lists without a duplicate in which
    every label but the last one is a valid name. *)
Lemma validateLabels_None labels :
  validateLabels labels = None ↔
  NoDup labels ∧
  ∀ k lk, labels !! k = Some lk → S k < length labels →
          validateMetric lk = None.
Proof.
  unfold validateLabels. destruct labels as [|l0 labels].
  - simpl. split; [intros _ | done]. split; [constructor | intros ? ? [=]].
  - rewrite validateLabels_outer_None by (simpl; lia).
    rewrite drop_0. simpl length. split.
    + intros [Hall Hnd]. split; [done |]. intros k lk Hlk Hk.
      apply (Hall k); [lia | done].
    + intros [Hnd Hall]. split; [| done]. intros k lk Hk Hlk.
      apply (Hall k); [done | lia].
Qed.

(** C3 (what the code does): the last label of the list is never checked
    against the grammar: a list without a duplicate whose labels before the
    last one are valid names is accepted, whatever its last label is. *)
Theorem validateLabels_last_unchecked labels last :
  NoDup (labels ++ [last]) →
  (∀ l, l ∈ labels → validateMetric l = None) →
  validateLabels (labels ++ [last]) = None.
Proof.
  intros Hnd Hvalid. apply validateLabels_None. split; [done |].
  intros k lk Hlk Hk. rewrite length_app in Hk. simpl in Hk.
  rewrite lookup_app_l in Hlk by lia.
  apply Hvalid. by eapply list_elem_of_lookup_2.
Qed.

(** ** Objectives *)
Section objectives_facts.
Context {SC : Strconv} {MO : MapOrder}.

Lemma validateObjectives_loop_None entries result :
  (validateObjectives_loop entries result).2 = None ↔
  ∀ k v, (k, v) ∈ entries → ∃ f, ParseFloat k = Ok f.
Proof.
  revert result. induction entries as [|[k v] rest IH]; intros result; simpl.
  - split; [by intros _ ? ? ?%elem_of_nil | done].
  - destruct (ParseFloat k) as [f|err] eqn:Hp; simpl.
    + rewrite IH. split.
      * intros Hall k' v' [[= -> ->]|?]%elem_of_cons; eauto.
      * intros Hall k' v' ?. apply (Hall k' v'). by right.
    + split; [done |]. intros Hall.
      destruct (Hall k v) as [f Hf]; [by left | congruence].
Qed.

(** [validateObjectives] reports no error exactly when every key of the
    mapping parses, in whatever order [range] visits the keys. *)
Lemma validateObjectives_None (m : gmap string float) :
  (validateObjectives m).2 = None ↔
  ∀ k, is_Some (m !! k) → ∃ f, ParseFloat k = Ok f.
Proof.
  unfold validateObjectives. rewrite validateObjectives_loop_None. split.
  - intros Hall k [v Hk]. apply (Hall k v).
    rewrite (range_perm _ m). by apply elem_of_map_to_list.
  - intros Hall k v Hin. apply Hall. exists v.
    rewrite (range_perm _ m) in Hin. by apply elem_of_map_to_list in Hin.
Qed.

(** A summary spec with an objectives key that does not parse builds no
    handler. *)
Lemma buildHandler_summary_bad_key spec k :
  Type_ spec = "summary" →
  is_Some (Objectives spec !! k) →
  (∀ f, ParseFloat k ≠ Ok f) →
  ∃ err, buildHandler spec = Err err.
Proof.
  intros Ht [v Hk] Hbad. unfold buildHandler. rewrite Ht.
  repeat (case_decide; [discriminate |]). case_decide; [| done].
  assert (0 < size (Objectives spec)) as Hsize.
  { destruct (decide (size (Objectives spec) = 0)) as [Hz|]; [| lia].
    apply map_size_empty_iff in Hz. rewrite Hz, lookup_empty in Hk. done. }
  case_decide; [| lia].
  destruct (validateObjectives (Objectives spec)) as [o [err|]] eqn:Hvo;
    [by eexists |].
  assert ((validateObjectives (Objectives spec)).2 = None) as Hn
    by (by rewrite Hvo).
  rewrite validateObjectives_None in Hn.
  destruct (Hn k) as [f Hf]; [by eexists | by apply Hbad in Hf].
Qed.

(** The objectives of the collector that [buildHandler] makes for a summary
    spec: the converted mapping when the spec has objectives (every key of
    which parses), the default ones when it has none. *)
Lemma buildHandler_summary_objectives spec h :
  Type_ spec = "summary" →
  buildHandler spec = Ok h →
  if decide (0 < size (Objectives spec)) then
    collectorObjectives (Collector h)
      = Some (validateObjectives (Objectives spec)).1
    ∧ ∀ k, is_Some (Objectives spec !! k) → ∃ f, ParseFloat k = Ok f
  else collectorObjectives (Collector h) = Some defaultObjectives.
Proof.
  intros Ht. unfold buildHandler. rewrite Ht.
  repeat (case_decide; [discriminate |]). case_decide; [| done].
  case_decide.
  - destruct (validateObjectives (Objectives spec)) as [o [err|]] eqn:Hvo;
      [done |].
    assert ((validateObjectives (Objectives spec)).2 = None) as Hn
      by (by rewrite Hvo).
    rewrite validateObjectives_None in Hn.
    intros Hb. split; [| done].
    repeat (case_decide || case_match); by simplify_eq.
  - intros Hb. repeat (case_decide || case_match); by simplify_eq.
Qed.

(** Under a free name such a spec is not registered, and the registry is
    left as it was. *)
Lemma register_summary_bad_key {Surface : Type} {EX : Exposition Surface}
    (w : World Surface) spec k :
  validateMetric (Name spec) = None →
  handlers w !! Name spec = None →
  Type_ spec = "summary" →
  is_Some (Objectives spec !! k) →
  (∀ f, ParseFloat k ≠ Ok f) →
  ∃ err, register w spec = (w, Some err).
Proof.
  intros Hv Hl Ht Hk Hbad.
  destruct (buildHandler_summary_bad_key spec k Ht Hk Hbad) as [err Hb].
  exists err. unfold register. by rewrite Hv, Hl, Hb.
Qed.

(** Reading a key of a float-keyed map right after it was set gives the
    value set, for every key but a NaN. *)
Lemma floatMapGet_set f value m :
  PrimFloat.eqb f f = true → floatMapGet f (floatMapSet f value m) = Some value.
Proof.
  intros Hf. unfold floatMapGet.
  induction m as [|[k x] m IH]; simpl.
  - by rewrite Hf.
  - destruct (PrimFloat.eqb k f) eqn:Hk; simpl; [by rewrite Hf |].
    by rewrite Hk.
Qed.

End objectives_facts.

(** ** The decoder worker *)
Section decoder_facts.
Context {JS : Json}.

Lemma DataParser_send_drop metrics i fuel :
  i + fuel = length metrics →
  DataParser_send metrics i fuel = EvSend <$> drop i metrics.
Proof.
  revert i. induction fuel as [|fuel IH]; intros i Hlen; simpl.
  - by rewrite drop_ge by lia.
  - destruct (metrics !! i) as [m|] eqn:Hi;
      [| apply lookup_ge_None in Hi; lia].
    rewrite (drop_S _ _ _ Hi), IH by lia. done.
Qed.

Lemma sent_EvSend metrics : sent (EvSend <$> metrics) = metrics.
Proof.
  unfold sent. induction metrics as [|m ms IH]; [done |].
  rewrite fmap_cons. cbn. by rewrite IH.
Qed.

Lemma counted_EvSend metrics : counted (EvSend <$> metrics) = [].
Proof.
  unfold counted. induction metrics as [|m ms IH]; [done |].
  rewrite fmap_cons. by cbn.
Qed.

Lemma sent_app evs1 evs2 : sent (evs1 ++ evs2) = sent evs1 ++ sent evs2.
Proof. apply omap_app. Qed.

(** C7: a payload that does not decode counts one error and sends nothing
    to the update queue; a payload that decodes sends each update of the
    batch once, in the batch's order, and counts no error; a worker that
    receives several payloads sends the batches of those that decode, one
    after the other. *)
Theorem DataParser_forwards data inputs :
  sent (DataParser_turn data) = decoded data ∧
  counted (DataParser_turn data)
    = match Unmarshal data with Ok _ => [] | Err _ => ["error"] end ∧
  sent (DataParser inputs) = inputs ≫= decoded.
Proof.
  assert (Hturn : ∀ d, sent (DataParser_turn d) = decoded d).
  { intros d. unfold DataParser_turn, decoded.
    destruct (Unmarshal d) as [metrics|err]; [| done].
    by rewrite DataParser_send_drop, drop_0, sent_EvSend. }
  split_and!; [done | |].
  - unfold DataParser_turn. destruct (Unmarshal data) as [metrics|err]; [| done].
    by rewrite DataParser_send_drop, drop_0, counted_EvSend.
  - unfold DataParser. induction inputs as [|d rest IH]; [done |].
    rewrite !bind_cons, sent_app, IH, Hturn. done.
Qed.

End decoder_facts.

(** ** The examples, on the instances of [Sample] *)
Section examples.
Import Sample.
#[local] Existing Instance listOrder.
#[local] Existing Instance strconv.
#[local] Existing Instance surface.
#[local] Existing Instance json.

Example parseDecimal_examples :
  parseDecimal "0.5" = Ok 0.5%float ∧ parseDecimal "0.99" = Ok 0.99%float ∧
  parseDecimal "abc" = Err syntaxError.
Proof. split_and!; vm_compute; reflexivity. Qed.

Example register_counterOld : register world0 counterOld = (worldOld, None).
Proof. vm_compute. reflexivity. Qed.

Example Hash_old_new :
  Hash counterOld = "f5a59d0d471b2609ba82eae7deb410d9" ∧
  Hash counterNew = "dec28b43be30aa868802585ee339e4c5".
Proof. split; vm_compute; reflexivity. Qed.

Lemma registry_inv_worldOld : registry_inv worldOld.
Proof.
  apply registry_inv_keys. intros k h; simpl.
  rewrite lookup_singleton_Some. by intros [<- <-].
Defined.

(** C1, at a concrete registry: the handler of [counterOld] is stored under
    "ab"; registering [counterNew] (same name, another help text, another
    fingerprint) succeeds, and the handler under "ab" is still the one of
    [counterOld]. *)
Lemma register_changed_keeps_old_witness :
  validateMetric (Name counterNew) = None ∧
  handlers worldOld !! Name counterNew = Some oldHandler ∧
  Hash (Spec oldHandler) ≠ Hash counterNew ∧
  (register worldOld counterNew).2 = None ∧
  handlers (register worldOld counterNew).1 = handlers worldOld ∧
  handlers (register worldOld counterNew).1 !! Name counterNew = Some oldHandler.
Proof.
  assert (Hv : validateMetric (Name counterNew) = None) by reflexivity.
  assert (Hl : handlers worldOld !! Name counterNew = Some oldHandler)
    by reflexivity.
  assert (Hh : Hash (Spec oldHandler) ≠ Hash counterNew)
    by (vm_compute; discriminate).
  assert (Hr : (register worldOld counterNew).2 = None)
    by (vm_compute; reflexivity).
  exact (conj Hv (conj Hl (conj Hh (conj Hr
    (register_changed_keeps_old worldOld counterNew oldHandler Hv Hl Hh Hr))))).
Defined.

Example register_changed_spec_differs :
  Spec <$> (handlers (register worldOld counterNew).1 !! "ab") = Some counterOld
  ∧ counterOld ≠ counterNew.
Proof. split; [vm_compute; reflexivity | discriminate]. Qed.

(** C2 (as stated, refuted): reloading a list with one spec whose name is
    not valid logs the error of its registration, and the name is among the
    names that the diff keeps. *)
Lemma Reload_keeps_errored_name :
  Reload_register world0 [badName]
  = (world0, ["Bad"], [LogErrorRegistering "Bad" (ErrInvalidName "Bad")]).
Proof. vm_compute. reflexivity. Qed.

(** On a surface that refuses to unregister, a name whose registration
    errored stays in names() although no unregistration of it was tried. *)
Example Reload_refusing_surface :
  let w1 := (@Reload _ _ _ refusing
               (@NewRegistry unit ()) [counterOld]).1 in
  @doNames _ _ w1 = ["ab"] ∧
  (@Reload _ _ _ refusing w1 [counterNew]).2
    = [LogErrorRegistering "ab" (ErrReRegister "ab")] ∧
  @doNames _ _ (@Reload _ _ _ refusing w1 [counterNew]).1 = ["ab"].
Proof. split_and!; vm_compute; reflexivity. Qed.

Example Reload_example :
  let w1 := (Reload world0 [counterOld; badLastLabel]).1 in
  doNames w1 = ["ab"] ∧
  (Reload w1 [summaryGood]).2 = [LogRegistered "lat"; LogUnregistered "ab"] ∧
  doNames (Reload w1 [summaryGood]).1 = ["lat"].
Proof. split_and!; vm_compute; reflexivity. Qed.

(** C3, at a concrete spec: the last label of [badLastLabel] is not a valid
    name, and [validateLabels] accepts the list. *)
Lemma validateLabels_last_unchecked_witness :
  NoDup (["ok"] ++ ["Bad Label"]) ∧
  (∀ l, l ∈ ["ok"] → validateMetric l = None) ∧
  validateMetric "Bad Label" = Some (ErrInvalidName "Bad Label") ∧
  validateLabels (["ok"] ++ ["Bad Label"]) = None.
Proof.
  assert (Hnd : NoDup (["ok"] ++ ["Bad Label"]))
    by (apply NoDup_cons; split;
        [by intros ?%list_elem_of_singleton | apply NoDup_singleton]).
  assert (Hvalid : ∀ l, l ∈ ["ok"] → validateMetric l = None)
    by (intros l ->%list_elem_of_singleton; reflexivity).
  exact (conj Hnd (conj Hvalid (conj eq_refl
    (validateLabels_last_unchecked ["ok"] "Bad Label" Hnd Hvalid)))).
Defined.

(** The handler of [badLastLabel] is built, and its registration
    succeeds. *)
Example buildHandler_unchecked_last_label :
  buildHandler badLastLabel
  = Ok (CounterVecHandler badLastLabel
          (NewCounterVec "ab" "h" ["ok"; "Bad Label"])) ∧
  (register world0 badLastLabel).2 = None.
Proof. split; vm_compute; reflexivity. Qed.

Example validateLabels_examples :
  validateLabels ["Bad"; "ok"] = Some (ErrInvalidName "Bad") ∧
  validateLabels ["aa"; "bb"; "aa"] = Some (ErrDuplicateLabel "aa") ∧
  validateLabels ["X"] = None ∧
  validateLabels ["one"; "two"; "three"] = None.
Proof. split_and!; reflexivity. Qed.

(** C10, at a concrete registry: "abc" is no float, the handler of
    [counterOld] is stored under "ab", and registering the summary spec
    [summaryBadKey] under "ab" succeeds: the registry is left as it
    was. *)
Theorem register_summary_bad_key_succeeds :
  ParseFloat "abc" = Err syntaxError ∧
  Objectives summaryBadKey !! "abc" = Some 0.1%float ∧
  register worldOld summaryBadKey = (worldOld, None).
Proof. split_and!; vm_compute; reflexivity. Qed.

Example buildHandler_summary_examples :
  buildHandler summaryBadKey = Err syntaxError ∧
  register world0 summaryBadKey = (world0, Some syntaxError) ∧
  buildHandler summaryGood
  = Ok (SummaryHandler summaryGood
          (NewSummary "lat" "h" [(0.5, 0.05); (0.9, 0.01)]%float)) ∧
  buildHandler summaryDefault
  = Ok (SummaryHandler summaryDefault (NewSummary "lat" "h" defaultObjectives)).
Proof. split_and!; vm_compute; reflexivity. Qed.

Lemma unregister_spec_witness :
  handlers worldOld !! "ab" = Some oldHandler ∧
  (promUnregister (Collector oldHandler) (prom worldOld)).2 = true ∧
  (unregister worldOld "ab").2 = None ∧
  handlers (unregister worldOld "ab").1 = delete "ab" (handlers worldOld).
Proof.
  assert (Hl : handlers worldOld !! "ab" = Some oldHandler) by reflexivity.
  assert (Hp : (promUnregister (Collector oldHandler) (prom worldOld)).2 = true)
    by reflexivity.
  destruct (unregister_spec worldOld "ab") as (_ & _ & Hok & _).
  exact (conj Hl (conj Hp (Hok oldHandler Hl Hp))).
Defined.

Lemma register_same_fingerprint_witness :
  validateMetric (Name counterOld) = None ∧
  handlers worldOld !! Name counterOld = Some oldHandler ∧
  Hash (Spec oldHandler) = Hash counterOld ∧
  register worldOld counterOld = (worldOld, None).
Proof.
  assert (Hv : validateMetric (Name counterOld) = None) by reflexivity.
  assert (Hl : handlers worldOld !! Name counterOld = Some oldHandler)
    by reflexivity.
  assert (Hh : Hash (Spec oldHandler) = Hash counterOld) by reflexivity.
  exact (conj Hv (conj Hl (conj Hh
    (register_same_fingerprint worldOld counterOld oldHandler Hv Hl Hh)))).
Defined.

Lemma registry_inv_preserved_witness :
  registry_inv worldOld ∧
  registry_inv (register worldOld counterNew).1 ∧
  registry_inv (unregister worldOld "ab").1 ∧
  registry_inv (Reload worldOld [summaryGood]).1 ∧
  registry_inv (doHandle worldOld incMetric).1.
Proof.
  split; [exact registry_inv_worldOld |].
  apply (registry_inv_preserved worldOld counterNew "ab" [summaryGood] incMetric
           registry_inv_worldOld).
Defined.

Example DataParser_example :
  DataParser [incPayload; "junk"; incPayload]
  = [EvSend incMetric; EvCountMetric "error";
     EvLog (ErrLibrary "invalid character"); EvSend incMetric].
Proof. vm_compute. reflexivity. Qed.

End examples.

(** * More of the code *)

(** ** Names and the frame of the registry operations *)
Section more_registry.
Context {SC : Strconv} {MO : MapOrder} {Surface : Type} {EX : Exposition Surface}.
Implicit Types (w : World Surface) (spec : MetricSpec) (h : MetricHandler).

Lemma length_doNames w : length (doNames w) = size (handlers w).
Proof.
  unfold doNames. rewrite length_fmap, (range_perm _ (handlers w)).
  apply length_map_to_list.
Qed.

(** X1: [Names] lists every name that has a handler, each once, whatever
    the order of [range] is. *)
Theorem doNames_exact w :
  NoDup (doNames w) ∧
  length (doNames w) = size (handlers w) ∧
  ∀ k, k ∈ doNames w ↔ is_Some (handlers w !! k).
Proof.
  split_and!; [apply NoDup_doNames | apply length_doNames |].
  apply elem_of_doNames.
Qed.

(** X2: [IsEmpty] holds exactly when [Names] has nothing to list. *)
Theorem IsEmpty_doNames w : IsEmpty w = true ↔ doNames w = [].
Proof.
  unfold IsEmpty. rewrite bool_decide_eq_true, <- length_doNames.
  by destruct (doNames w).
Qed.

(** X3: [register] leaves the handlers of all the other names as they
    are, whether it succeeds or not. *)
Theorem register_frame w spec k :
  k ≠ Name spec → handlers (register w spec).1 !! k = handlers w !! k.
Proof. apply register_other. Qed.


(** X5: a registration under a free name that succeeds stores the handler
    that [buildHandler] makes of the spec, after the surface accepted its
    collector. *)
Theorem register_fresh_stores w spec :
  handlers w !! Name spec = None →
  (register w spec).2 = None →
  ∃ h, buildHandler spec = Ok h ∧ Spec h = spec ∧
       promRegister (Collector h) (prom w) = (prom (register w spec).1, None) ∧
       handlers (register w spec).1 = <[Name spec := h]> (handlers w).
Proof.
  unfold register. intros Hl. destruct (validateMetric _); [done |].
  rewrite Hl. destruct (buildHandler spec) as [h|] eqn:Hb; [| done].
  unfold register_finish.
  destruct (promRegister _ _) as [p [e|]] eqn:Hr; [done |]. intros _.
  exists h. split_and!; try done. by apply buildHandler_Spec.
Qed.

(** X6: registering a spec under a free name and unregistering the name,
    both with success, gives back the map of before. *)
Theorem register_unregister w spec :
  handlers w !! Name spec = None →
  (register w spec).2 = None →
  (unregister (register w spec).1 (Name spec)).2 = None →
  handlers (unregister (register w spec).1 (Name spec)).1 = handlers w.
Proof.
  intros Hl Hr.
  destruct (register_fresh w spec (register w spec).1 Hl) as (_ & h & _ & Hm).
  { by destruct (register w spec) as [w1 [e|]]. }
  unfold unregister. rewrite Hm, lookup_insert_eq.
  destruct (promUnregister _ _) as [p []]; [| done]. intros _. simpl.
  by apply delete_insert_id.
Qed.

(** *** Reload *)

Lemma Reload_register_log_length w specs :
  length (Reload_register w specs).2 = length specs.
Proof.
  revert w. induction specs as [|spec rest IH]; intros w; simpl; [done |].
  destruct (register w spec) as [w1 e]. specialize (IH w1).
  destruct (Reload_register w1 rest) as [[w2 names] log]. simpl in *. by rewrite IH.
Qed.

Lemma Reload_unregister_log_length w unreg :
  length (Reload_unregister w unreg).2 = length unreg.
Proof.
  revert w. induction unreg as [|name rest IH]; intros w; simpl; [done |].
  destruct (unregister w name) as [w1 e]. specialize (IH w1).
  destruct (Reload_unregister w1 rest) as [w2 log]. simpl in *. by rewrite IH.
Qed.

(** X7: [Reload] logs one line for each incoming spec and one line for each
    name it knew that is not the name of an incoming spec: every item is
    reported, none twice. *)
Theorem Reload_log_length w specs :
  length (Reload w specs).2
  = length specs + length (sliceSubStr (doNames w) (Name <$> specs)).
Proof.
  unfold Reload.
  pose proof (Reload_register_log_length w specs) as H1.
  pose proof (Reload_register_newNames w specs) as Hn.
  destruct (Reload_register w specs) as [[w1 newNames] log1]. simpl in *.
  subst newNames.
  pose proof (Reload_unregister_log_length w1
                (sliceSubStr (doNames w) (Name <$> specs))) as H2.
  destruct (Reload_unregister w1 _) as [w2 log2]. simpl in *.
  rewrite length_app. lia.
Qed.

Lemma unregister_frame w name k :
  k ≠ name → handlers (unregister w name).1 !! k = handlers w !! k.
Proof.
  intros Hne. unfold unregister. destruct (handlers w !! name); [| done].
  destruct (promUnregister _ _) as [p []]; [| done].
  simpl. by rewrite lookup_delete_ne.
Qed.

Lemma Reload_unregister_frame w unreg k :
  k ∉ unreg → handlers (Reload_unregister w unreg).1 !! k = handlers w !! k.
Proof.
  revert w. induction unreg as [|name rest IH]; intros w Hk; simpl; [done |].
  apply not_elem_of_cons in Hk as [Hne Hk].
  pose proof (unregister_frame w name k Hne) as Hu.
  destruct (unregister w name) as [w1 e]. specialize (IH w1 Hk).
  destruct (Reload_unregister w1 rest) as [w2 log]. simpl in *. congruence.
Qed.

(** The lines of the second loop when every name of its list has a
    handler: one line for each name, in the list's order, telling that the
    name was unregistered or that the surface refused. *)
Lemma Reload_unregister_lines w unreg :
  NoDup unreg →
  (∀ k, k ∈ unreg → is_Some (handlers w !! k)) →
  Forall2 (λ k line, line = LogUnregistered k ∨ line = LogError (ErrUnregister k))
          unreg (Reload_unregister w unreg).2.
Proof.
  revert w. induction unreg as [|name rest IH]; intros w Hnd Hall; simpl.
  - constructor.
  - apply NoDup_cons in Hnd as [Hnotin Hnd].
    assert (Hrest : ∀ k, k ∈ rest →
              is_Some (handlers (unregister w name).1 !! k)).
    { intros k Hk. rewrite unregister_frame by (intros ->; done).
      apply Hall. by right. }
    destruct (Hall name) as [h Hl]; [by left |].
    specialize (IH (unregister w name).1 Hnd Hrest).
    unfold unregister in *. rewrite Hl in *.
    destruct (promUnregister _ _) as [p []]; simpl in *;
      destruct (Reload_unregister _ rest) as [w2 log]; simpl in *;
      constructor; auto.
Qed.

(** X8: the second half of [Reload] tries to unregister exactly the names
    it knew that are not names of incoming specs, each with one line that
    tells the outcome; a name of an incoming spec is never unregistered,
    and [Reload] never finds a name to unregister missing. *)
Theorem Reload_unregister_attempts w specs n :
  ((LogUnregistered n ∈ (Reload w specs).2
    ∨ LogError (ErrUnregister n) ∈ (Reload w specs).2)
   ↔ n ∈ doNames w ∧ n ∉ Name <$> specs)
  ∧ LogError (ErrUnregisterMissing n) ∉ (Reload w specs).2.
Proof.
  unfold Reload.
  pose proof (Reload_register_newNames w specs) as Hn.
  pose proof (λ k, Reload_register_other w specs k) as Hother.
  pose proof (λ e, Reload_register_log w specs e) as Hlog1.
  assert (Hreg1 : LogUnregistered n ∉ (Reload_register w specs).2).
  { clear. revert w. induction specs as [|spec rest IH]; intros w; simpl.
    - apply not_elem_of_nil.
    - destruct (register w spec) as [w1 e]. specialize (IH w1).
      destruct (Reload_register w1 rest) as [[w2 names] log]. simpl in *.
      apply not_elem_of_cons. split; [by destruct e | done]. }
  destruct (Reload_register w specs) as [[w1 newNames] log1]. simpl in *.
  subst newNames.
  set (unreg := sliceSubStr (doNames w) (Name <$> specs)).
  assert (Hlines := Reload_unregister_lines w1 unreg
            (NoDup_sliceSubStr _ _ (NoDup_doNames w))).
  destruct (Reload_unregister w1 unreg) as [w2 log2]. simpl in *.
  assert (Hall : ∀ k, k ∈ unreg → is_Some (handlers w1 !! k)).
  { intros k [Hk Hnin]%elem_of_sliceSubStr.
    rewrite Hother by done. by apply elem_of_doNames. }
  specialize (Hlines Hall). rewrite !elem_of_app.
  assert (Hin : (LogUnregistered n ∈ log2 ∨ LogError (ErrUnregister n) ∈ log2)
                ↔ n ∈ unreg).
  { clear -Hlines. induction Hlines as [|k line ks lines Hk _ IH].
    - split; [intros [?%elem_of_nil|?%elem_of_nil]; done | by intros ?%elem_of_nil].
    - rewrite !elem_of_cons, <- IH.
      destruct Hk as [->| ->]; split; intros Hor; destruct_or!; simplify_eq;
        auto. }
  split.
  - rewrite <- (elem_of_sliceSubStr (doNames w)). fold unreg. rewrite <- Hin.
    specialize (Hlog1 (ErrUnregister n)). tauto.
  - intros [Hbad|Hbad]; [by apply Hlog1 in Hbad |].
    clear -Hlines Hbad. induction Hlines as [|k line ks lines Hk _ IH].
    + by apply elem_of_nil in Hbad.
    + apply elem_of_cons in Hbad as [Heq|?]; [| auto].
      by destruct Hk as [->| ->].
Qed.

(** [register] leaves a handler alone when the spec is for another name,
    when the spec's name is refused, and when the fingerprints agree. *)
Lemma register_same_lookup w spec n h :
  handlers w !! n = Some h →
  (Name spec = n → Hash (Spec h) = Hash spec) →
  handlers (register w spec).1 !! n = Some h.
Proof.
  intros Hl Hh. destruct (decide (n = Name spec)) as [->|Hne];
    [| by rewrite register_other].
  unfold register. destruct (validateMetric _); [done |]. rewrite Hl.
  rewrite decide_True by auto. done.
Qed.

(** X9: [Reload] keeps the handler of a name that comes in again with the
    fingerprint it has: the handler, with its collector, is the one of
    before. *)
Theorem Reload_keeps_unchanged w specs n h :
  handlers w !! n = Some h →
  n ∈ Name <$> specs →
  (∀ spec, spec ∈ specs → Name spec = n → Hash (Spec h) = Hash spec) →
  handlers (Reload w specs).1 !! n = Some h.
Proof.
  intros Hl Hin Hsame. unfold Reload.
  pose proof (Reload_register_newNames w specs) as Hn.
  assert (Hreg : handlers (Reload_register w specs).1.1 !! n = Some h).
  { clear Hin Hn. revert w Hl.
    induction specs as [|spec rest IH]; intros w Hl; simpl; [done |].
    pose proof (register_same_lookup w spec n h Hl) as Hr.
    destruct (register w spec) as [w1 e]. simpl in *.
    specialize (IH (λ s Hs, Hsame s (list_elem_of_further _ _ _ Hs)) w1).
    destruct (Reload_register w1 rest) as [[w2 names] log]. simpl in *.
    apply IH, Hr. intros Hname. apply Hsame; [by left | done]. }
  destruct (Reload_register w specs) as [[w1 newNames] log1]. simpl in *.
  subst newNames.
  pose proof (Reload_unregister_frame w1
                (sliceSubStr (doNames w) (Name <$> specs)) n) as Hfr.
  destruct (Reload_unregister w1 _) as [w2 log2]. simpl in *.
  rewrite Hfr; [done |]. rewrite elem_of_sliceSubStr. tauto.
Qed.

End more_registry.

(** ** The reload turn of [main] *)
Section main_facts.
Context {SC : Strconv} {MO : MapOrder} {Surface : Type} {EX : Exposition Surface}.
Implicit Types (w : World Surface).

Lemma main_register_Reload_register w specs :
  main_register w specs
  = ((Reload_register w specs).1, mainLine <$> (Reload_register w specs).2).
Proof.
  revert w. induction specs as [|spec rest IH]; intros w; simpl; [done |].
  destruct (register w spec) as [w1 e]. rewrite (IH w1).
  destruct (Reload_register w1 rest) as [[w2 names] log]. simpl.
  by destruct e.
Qed.

Lemma main_unregister_Reload_unregister w unreg :
  main_unregister w unreg = Reload_unregister w unreg.
Proof.
  revert w. induction unreg as [|name rest IH]; intros w; simpl; [done |].
  destruct (unregister w name) as [w1 e]. by rewrite (IH w1).
Qed.

Lemma mainLine_Reload_unregister w unreg :
  mainLine <$> (Reload_unregister w unreg).2 = (Reload_unregister w unreg).2.
Proof.
  revert w. induction unreg as [|name rest IH]; intros w; simpl; [done |].
  destruct (unregister w name) as [w1 e]. specialize (IH w1).
  destruct (Reload_unregister w1 rest) as [w2 log]. cbn [snd] in *.
  rewrite fmap_cons, IH. by destruct e.
Qed.

(** X10: the reload turn written out in [main] and [Reload] do the same to
    the registry and to the surface, and log the same lines but for the
    errors of registrations, which [main] logs without the name; when the
    configuration does not load, [main] leaves both as they are. *)
Theorem main_reload_Reload w specs err :
  main_reload w (Ok specs)
  = ((Reload w specs).1,
     MlVersion :: MlLoading :: (MlLine ∘ mainLine <$> (Reload w specs).2))
  ∧ (main_reload w (Err err)).1 = w.
Proof.
  split; [| done]. unfold main_reload, Reload.
  rewrite main_register_Reload_register.
  destruct (Reload_register w specs) as [[w1 newNames] log1]. simpl.
  rewrite main_unregister_Reload_unregister.
  pose proof (mainLine_Reload_unregister w1 (sliceSubStr (doNames w) newNames))
    as Hlines.
  destruct (Reload_unregister w1 _) as [w2 log2]. simpl in *.
  by rewrite list_fmap_compose, !fmap_app, Hlines, <- list_fmap_compose.
Qed.

End main_facts.

(** ** The run loop *)
Section process_facts.
Context {Surface : Type} {EX : Exposition Surface}.
Implicit Types (w : World Surface).

Lemma Process_loop_handlers w selected :
  handlers (Process_loop w selected).1.1 = handlers w.
Proof.
  revert w. induction selected as [|[metric|b] rest IH]; intros w; simpl;
    [done | | done].
  pose proof (doHandle_handlers w metric) as Hh.
  destruct (doHandle w metric) as [w1 e]. specialize (IH w1).
  destruct (Process_loop w1 rest) as [[w2 evs] r]. simpl in *. congruence.
Qed.

(** X11: the run loop never changes the map of the registry: the handlers
    are the same, under the same names, for every update it dispatches. *)
Theorem Process_handlers w selected :
  handlers (Process w selected).1.1 = handlers w.
Proof.
  unfold Process. pose proof (Process_loop_handlers w selected) as Hh.
  by destruct (Process_loop w selected) as [[w' evs] r].
Qed.

Lemma Process_loop_metrics w metrics tail :
  (Process_loop w ((GotMetric <$> metrics) ++ tail)).2
  = (Process_loop (Process_loop w (GotMetric <$> metrics)).1.1 tail).2 ∧
  length (processCounted (Process_loop w (GotMetric <$> metrics)).1.2)
  = length metrics ∧
  Forall (λ status, status = "ok" ∨ status = "error")
         (processCounted (Process_loop w (GotMetric <$> metrics)).1.2).
Proof.
  revert w. induction metrics as [|metric rest IH]; intros w.
  - simpl. split_and!; [done | done | constructor].
  - rewrite fmap_cons. cbn [app Process_loop].
    destruct (doHandle w metric) as [w1 e]. specialize (IH w1).
    destruct IH as (IH1 & IH2 & IH3).
    destruct (Process_loop w1 ((GotMetric <$> rest) ++ tail)) as [[w2 evs] r].
    destruct (Process_loop w1 (GotMetric <$> rest)) as [[w3 evs3] r3].
    simpl in *. split_and!; [done | |].
    + unfold processCounted in *. rewrite omap_app, length_app, IH2.
      by destruct e.
    + unfold processCounted in *. rewrite omap_app. apply Forall_app.
      split; [| done].
      destruct e; cbn; apply Forall_singleton; [by right | by left].
Qed.


(** X13: an update for a name without a handler is counted as an error and
    changes nothing, in the registry and at the surface. *)
Theorem Process_unknown_names w metrics b :
  (∀ metric, metric ∈ metrics → handlers w !! MetricName metric = None) →
  Process w ((GotMetric <$> metrics) ++ [GotDone b])
  = (w,
     PrStart ::
       (metrics ≫= λ metric,
          [PrCountMetric "error";
           PrError (ErrHandleMissing (MetricName metric)) metric]),
     Some []).
Proof.
  intros Hall. unfold Process.
  assert (Process_loop w ((GotMetric <$> metrics) ++ [GotDone b])
          = (w, metrics ≫= (λ metric,
                   [PrCountMetric "error";
                    PrError (ErrHandleMissing (MetricName metric)) metric]),
             Some [])) as ->; [| done].
  induction metrics as [|metric rest IH]; [done |].
  rewrite fmap_cons, bind_cons. cbn [app Process_loop].
  unfold doHandle at 1. rewrite (Hall metric) by by left.
  rewrite IH; [done |]. intros m Hm. apply Hall. by right.
Qed.

End process_facts.

(** ** The registry and a surface that knows what is registered *)
Section sync_facts.
Context {SC : Strconv} {MO : MapOrder} {Surface : Type} {EX : Exposition Surface}
        {TS : TrackedSurface Surface}.
Implicit Types (w : World Surface) (spec : MetricSpec) (h : MetricHandler).

Lemma buildHandler_optsName spec h :
  buildHandler spec = Ok h → optsName (Collector h) = Name spec.
Proof.
  unfold buildHandler. intros Hb.
  repeat (case_decide || case_match); by simplify_eq.
Qed.

Lemma in_sync_register_finish w spec h :
  in_sync w → Name (Spec h) = Name spec → optsName (Collector h) = Name spec →
  in_sync (register_finish w spec h).1.
Proof.
  intros [Hk Hd] Hn Ho. unfold register_finish.
  pose proof (registered_promRegister (Collector h) (prom w)) as Hr.
  destruct (promRegister _ _) as [p [e|]]; simpl in *.
  - split; simpl; [done | by rewrite Hr].
  - split.
    + intros k h'; simpl. rewrite lookup_insert.
      case_decide; [by intros [= <-]; subst | apply Hk].
    + simpl. by rewrite Hr, Hd, dom_insert_L, Ho.
Qed.

Lemma in_sync_delete w h p :
  in_sync w →
  registered p = registered (prom w) ∖ {[optsName (Collector h)]} →
  handlers w !! optsName (Collector h) = Some h →
  in_sync {| handlers := delete (optsName (Collector h)) (handlers w); prom := p |}.
Proof.
  intros [Hk Hd] Hp Hl. split; simpl.
  - intros k h'. rewrite lookup_delete. case_decide; [done | apply Hk].
  - by rewrite Hp, Hd, dom_delete_L.
Qed.

Lemma in_sync_register w spec : in_sync w → in_sync (register w spec).1.
Proof.
  intros Hs. unfold register. destruct (validateMetric _); [done |].
  destruct (handlers w !! Name spec) as [h|] eqn:Hl.
  - case_decide; [done |].
    destruct (proj1 Hs _ _ Hl) as [Hn Ho].
    pose proof (registered_promUnregister (Collector h) (prom w)) as Hr.
    destruct (promUnregister _ _) as [p []]; simpl in *.
    + apply in_sync_register_finish; [| done | done].
      rewrite <- Ho. apply in_sync_delete; [done | done | by rewrite Ho].
    + destruct Hs as [Hk Hd]. split; simpl; [done | by rewrite Hr].
  - destruct (buildHandler spec) as [h|] eqn:Hb; [| done].
    apply in_sync_register_finish; [done | |].
    + by rewrite (buildHandler_Spec _ _ Hb).
    + by apply buildHandler_optsName.
Qed.

Lemma in_sync_unregister w name : in_sync w → in_sync (unregister w name).1.
Proof.
  intros Hs. unfold unregister.
  destruct (handlers w !! name) as [h|] eqn:Hl; [| done].
  destruct (proj1 Hs _ _ Hl) as [Hn Ho].
  pose proof (registered_promUnregister (Collector h) (prom w)) as Hr.
  destruct (promUnregister _ _) as [p []]; simpl in *.
  - rewrite <- Ho. apply in_sync_delete; [done | done | by rewrite Ho].
  - destruct Hs as [Hk Hd]. split; simpl; [done | by rewrite Hr].
Qed.

Lemma in_sync_Reload_register w specs :
  in_sync w → in_sync (Reload_register w specs).1.1.
Proof.
  revert w. induction specs as [|spec rest IH]; intros w Hs; simpl; [done |].
  pose proof (in_sync_register w spec Hs) as Hs1.
  destruct (register w spec) as [w1 e]. specialize (IH w1 Hs1).
  by destruct (Reload_register w1 rest) as [[w2 names] log].
Qed.

Lemma in_sync_Reload_unregister w unreg :
  in_sync w → in_sync (Reload_unregister w unreg).1.
Proof.
  revert w. induction unreg as [|name rest IH]; intros w Hs; simpl; [done |].
  pose proof (in_sync_unregister w name Hs) as Hs1.
  destruct (unregister w name) as [w1 e]. specialize (IH w1 Hs1).
  by destruct (Reload_unregister w1 rest) as [w2 log].
Qed.

Lemma in_sync_Reload w specs : in_sync w → in_sync (Reload w specs).1.
Proof.
  intros Hs. unfold Reload.
  pose proof (in_sync_Reload_register w specs Hs) as Hs1.
  destruct (Reload_register w specs) as [[w1 newNames] log1].
  pose proof (in_sync_Reload_unregister w1
                (sliceSubStr (doNames w) newNames) Hs1) as Hs2.
  by destruct (Reload_unregister w1 _) as [w2 log2].
Qed.

Lemma in_sync_doHandle w metric : in_sync w → in_sync (doHandle w metric).1.
Proof.
  intros [Hk Hd]. unfold doHandle. destruct (handlers w !! _) as [h|]; [| done].
  pose proof (registered_handlerHandle h metric (prom w)) as Hr.
  destruct (handlerHandle _ _ _) as [p e]. split; simpl in *; [done |].
  by rewrite Hr.
Qed.

Lemma in_sync_Process_loop w selected :
  in_sync w → in_sync (Process_loop w selected).1.1.
Proof.
  revert w. induction selected as [|[metric|b] rest IH]; intros w Hs; simpl;
    [done | | done].
  pose proof (in_sync_doHandle w metric Hs) as Hs1.
  destruct (doHandle w metric) as [w1 e]. specialize (IH w1 Hs1).
  by destruct (Process_loop w1 rest) as [[w2 evs] r].
Qed.

(** X14: on a surface whose set of registered names changes only by a
    registration or an unregistration that succeeds, the registry and the
    surface stay in agreement through register, unregister, Reload, Handle
    and the run loop, also when an operation fails: the names that have a
    handler are the names registered at the surface, and a handler's key is
    the name of its collector. *)
Theorem in_sync_preserved w spec name specs metric selected :
  in_sync w →
  in_sync (register w spec).1 ∧
  in_sync (unregister w name).1 ∧
  in_sync (Reload w specs).1 ∧
  in_sync (doHandle w metric).1 ∧
  in_sync (Process w selected).1.1.
Proof.
  intros Hs. split_and!.
  - by apply in_sync_register.
  - by apply in_sync_unregister.
  - by apply in_sync_Reload.
  - by apply in_sync_doHandle.
  - unfold Process. pose proof (in_sync_Process_loop w selected Hs) as Hp.
    by destruct (Process_loop w selected) as [[w' evs] r].
Qed.

Lemma in_sync_NewRegistry (p : Surface) :
  registered p = ∅ → in_sync (NewRegistry p).
Proof.
  intros Hp. split; simpl.
  - intros k h. by rewrite lookup_empty.
  - by rewrite Hp, dom_empty_L.
Qed.

Context {RS : ReleasingSurface Surface}.

Lemma unregister_releases w name :
  in_sync w → handlers (unregister w name).1 !! name = None.
Proof.
  intros Hs. unfold unregister.
  destruct (handlers w !! name) as [h|] eqn:Hl; [| done].
  destruct (proj1 Hs _ _ Hl) as [Hn Ho].
  pose proof (promUnregister_registered (Collector h) (prom w)) as Hr.
  destruct (promUnregister _ _) as [p []]; simpl in *.
  - by rewrite lookup_delete_eq.
  - assert (false = true) as [=]. apply Hr.
    rewrite Ho, (proj2 Hs). apply elem_of_dom. by eexists.
Qed.

Lemma Reload_unregister_releases w unreg k :
  in_sync w → NoDup unreg → k ∈ unreg →
  handlers (Reload_unregister w unreg).1 !! k = None.
Proof.
  revert w. induction unreg as [|name rest IH]; intros w Hs Hnd Hk; simpl.
  - by apply elem_of_nil in Hk.
  - apply NoDup_cons in Hnd as [Hnotin Hnd].
    pose proof (in_sync_unregister w name Hs) as Hs1.
    pose proof (unregister_releases w name Hs) as Hrel.
    pose proof (Reload_unregister_frame (unregister w name).1 rest name Hnotin)
      as Hfr.
    specialize (IH (unregister w name).1 Hs1 Hnd).
    destruct (unregister w name) as [w1 e]. simpl in *.
    destruct (Reload_unregister w1 rest) as [w2 log]. simpl in *.
    apply elem_of_cons in Hk as [->|Hk]; [congruence | auto].
Qed.

Lemma Reload_final_incoming w specs n :
  in_sync w → is_Some (handlers (Reload w specs).1 !! n) → n ∈ Name <$> specs.
Proof.
  intros Hs. unfold Reload.
  pose proof (in_sync_Reload_register w specs Hs) as Hs1.
  pose proof (Reload_register_newNames w specs) as Hn.
  pose proof (Reload_register_other w specs n) as Hother.
  destruct (Reload_register w specs) as [[w1 newNames] log1]. simpl in *.
  subst newNames.
  set (unreg := sliceSubStr (doNames w) (Name <$> specs)).
  pose proof (Reload_unregister_releases w1 unreg n Hs1
                (NoDup_sliceSubStr _ _ (NoDup_doNames w))) as Hrel.
  pose proof (Reload_unregister_frame w1 unreg n) as Hfr.
  destruct (Reload_unregister w1 unreg) as [w2 log2]. simpl in *.
  intros Hsome. destruct (decide (n ∈ Name <$> specs)) as [|Hnin]; [done |].
  destruct (decide (n ∈ unreg)) as [Hin|Hnu].
  - rewrite Hrel in Hsome by done. by destruct Hsome.
  - exfalso. apply Hnu. apply elem_of_sliceSubStr. split; [| done].
    apply elem_of_doNames. by rewrite <- Hother, <- Hfr.
Qed.


(** On such a surface the registration of a spec whose name has a handler
    does not fail. *)
Lemma register_existing_ok w spec h :
  in_sync w → handlers w !! Name spec = Some h →
  validateMetric (Name spec) = None → (register w spec).2 = None.
Proof.
  intros Hs Hl Hv. unfold register. rewrite Hv, Hl. case_decide; [done |].
  destruct (proj1 Hs _ _ Hl) as [Hn Ho].
  pose proof (promUnregister_registered (Collector h) (prom w)) as Hr.
  pose proof (promRegister_again (Collector h) (prom w)) as Ha.
  destruct (promUnregister _ _) as [p []]; simpl in *.
  - unfold register_finish. simpl.
    destruct (promRegister _ _) as [p' [e|]]; [| done].
    simpl in Ha. by specialize (Ha eq_refl).
  - assert (false = true) as [=]. apply Hr.
    rewrite Ho, (proj2 Hs). apply elem_of_dom. by eexists.
Qed.

Lemma register_ok_valid w spec :
  (register w spec).2 = None → validateMetric (Name spec) = None.
Proof. unfold register. by destruct (validateMetric _). Qed.

Lemma names_valid_register w spec :
  names_valid w → names_valid (register w spec).1.
Proof.
  intros Hv k Hk. destruct (decide (k = Name spec)) as [->|Hne].
  - destruct (validateMetric (Name spec)) as [e|] eqn:Hval; [| done].
    rewrite <- Hval. apply Hv. unfold register in Hk. by rewrite Hval in Hk.
  - apply Hv. by rewrite <- (register_other w spec k).
Qed.

Lemma names_valid_Reload_register w specs :
  names_valid w → names_valid (Reload_register w specs).1.1.
Proof.
  revert w. induction specs as [|spec rest IH]; intros w Hv; simpl; [done |].
  pose proof (names_valid_register w spec Hv) as Hv1.
  destruct (register w spec) as [w1 e]. specialize (IH w1 Hv1).
  by destruct (Reload_register w1 rest) as [[w2 names] log].
Qed.

Lemma names_valid_Reload w specs : names_valid w → names_valid (Reload w specs).1.
Proof.
  intros Hv. unfold Reload.
  pose proof (names_valid_Reload_register w specs Hv) as Hv1.
  destruct (Reload_register w specs) as [[w1 newNames] log1].
  pose proof (Reload_unregister_lookup w1 (sliceSubStr (doNames w) newNames))
    as Hlook.
  destruct (Reload_unregister w1 _) as [w2 log2]. simpl in *.
  intros k Hk. apply Hv1.
  by apply (Hlook k (NoDup_sliceSubStr _ _ (NoDup_doNames w))) in Hk as [? _].
Qed.

(** A name with a handler keeps a handler through the first loop. *)
Lemma Reload_register_persists w specs n :
  in_sync w → is_Some (handlers w !! n) → validateMetric n = None →
  is_Some (handlers (Reload_register w specs).1.1 !! n).
Proof.
  revert w. induction specs as [|spec rest IH]; intros w Hs Hn Hv; simpl;
    [done |].
  pose proof (in_sync_register w spec Hs) as Hs1.
  assert (Hn1 : is_Some (handlers (register w spec).1 !! n)).
  { destruct (decide (n = Name spec)) as [->|Hne];
      [| by rewrite register_other].
    destruct Hn as [h Hl]. apply register_ok_lookup.
    by apply (register_existing_ok w spec h). }
  destruct (register w spec) as [w1 e]. specialize (IH w1 Hs1 Hn1 Hv).
  by destruct (Reload_register w1 rest) as [[w2 names] log].
Qed.

(** A name with a handler that comes in again is logged as registered. *)
Lemma Reload_register_known w specs n :
  in_sync w → is_Some (handlers w !! n) → validateMetric n = None →
  n ∈ Name <$> specs → LogRegistered n ∈ (Reload_register w specs).2.
Proof.
  revert w. induction specs as [|spec rest IH]; intros w Hs Hn Hv Hin; simpl.
  - by apply elem_of_nil in Hin.
  - pose proof (in_sync_register w spec Hs) as Hs1.
    pose proof (register_other w spec n) as Hother.
    destruct (decide (n = Name spec)) as [->|Hne].
    + destruct Hn as [h Hl].
      pose proof (register_existing_ok w spec h Hs Hl Hv) as Hok.
      destruct (register w spec) as [w1 e]. simpl in *. subst e.
      destruct (Reload_register w1 rest) as [[w2 names] log]. simpl. by left.
    + rewrite fmap_cons in Hin. apply elem_of_cons in Hin as [?|Hin]; [done |].
      destruct (register w spec) as [w1 e]. simpl in *.
      specialize (IH w1 Hs1). rewrite Hother in IH by done.
      specialize (IH Hn Hv Hin).
      destruct (Reload_register w1 rest) as [[w2 names] log]. simpl in *.
      by right.
Qed.

(** A name that is logged as registered has a handler after the first
    loop. *)
Lemma Reload_register_registered w specs n :
  in_sync w → LogRegistered n ∈ (Reload_register w specs).2 →
  is_Some (handlers (Reload_register w specs).1.1 !! n) ∧ n ∈ Name <$> specs.
Proof.
  revert w. induction specs as [|spec rest IH]; intros w Hs; simpl.
  - by intros ?%elem_of_nil.
  - pose proof (in_sync_register w spec Hs) as Hs1.
    pose proof (register_ok_lookup w spec) as Hok.
    pose proof (register_ok_valid w spec) as Hval.
    destruct (register w spec) as [w1 e]. simpl in *.
    specialize (IH w1 Hs1).
    pose proof (Reload_register_persists w1 rest n Hs1) as Hp.
    destruct (Reload_register w1 rest) as [[w2 names] log]. simpl in *.
    intros [Heq|Hin]%elem_of_cons.
    + destruct e as [e|]; [done |]. injection Heq as ->.
      split; [by apply Hp; auto | by left].
    + destruct (IH Hin) as [? ?]. split; [done | by right].
Qed.

Lemma Reload_unregister_no_registered w unreg n :
  LogRegistered n ∉ (Reload_unregister w unreg).2.
Proof.
  revert w. induction unreg as [|name rest IH]; intros w; simpl.
  - apply not_elem_of_nil.
  - destruct (unregister w name) as [w1 e]. specialize (IH w1).
    destruct (Reload_unregister w1 rest) as [w2 log]. simpl in *.
    apply not_elem_of_cons. split; [by destruct e | done].
Qed.

(** X16: on a surface that lets go of every registered collector and takes
    it back, a registry that agrees with the surface and has valid names
    only has, after a reload, exactly the names that the reload logged as
    registered; and its names are valid again. *)
Theorem Reload_names_registered w specs :
  in_sync w → names_valid w →
  (∀ n, n ∈ doNames (Reload w specs).1 ↔ LogRegistered n ∈ (Reload w specs).2)
  ∧ names_valid (Reload w specs).1.
Proof.
  intros Hs Hv. split; [| by apply names_valid_Reload].
  intros n. rewrite elem_of_doNames.
  pose proof (Reload_final_incoming w specs n Hs) as Hinc.
  unfold Reload in *.
  pose proof (Reload_register_newNames w specs) as Hn.
  pose proof (Reload_register_lookup w specs n) as Hlook.
  pose proof (Reload_register_known w specs n Hs) as Hknown.
  pose proof (Reload_register_registered w specs n Hs) as Hreg.
  destruct (Reload_register w specs) as [[w1 newNames] log1]. simpl in *.
  subst newNames.
  set (unreg := sliceSubStr (doNames w) (Name <$> specs)) in *.
  pose proof (Reload_unregister_frame w1 unreg n) as Hfr.
  pose proof (Reload_unregister_no_registered w1 unreg n) as Hno.
  pose proof (Reload_unregister_lookup w1 unreg n
                (NoDup_sliceSubStr _ _ (NoDup_doNames w))) as Hun.
  destruct (Reload_unregister w1 unreg) as [w2 log2]. simpl in *.
  rewrite elem_of_app. split.
  - intros Hsome. left. specialize (Hinc Hsome).
    apply Hun in Hsome as [Hsome _].
    destruct (Hlook Hsome) as [Hw|?]; [| done].
    apply Hknown; [done | by apply Hv | done].
  - intros [Hin|?]; [| done]. destruct (Hreg Hin) as [Hsome Hinc'].
    rewrite Hfr; [done |]. unfold unreg. rewrite elem_of_sliceSubStr. tauto.
Qed.

End sync_facts.

(** ** What [buildHandler] makes *)
Section build_facts.
Context {SC : Strconv} {MO : MapOrder}.
Implicit Types (spec : MetricSpec) (h : MetricHandler).





(** X18: the handler that [buildHandler] makes holds the spec, is of the
    spec's family, and is a vector handler exactly when the spec has
    labels; its collector is of the same kind, has the spec's name and
    help, carries the spec's labels when it is a vector, and for a
    histogram the spec's buckets, or the default ones when the spec has
    none. *)
Theorem buildHandler_shape spec h :
  buildHandler spec = Ok h →
  Spec h = spec ∧
  handlerType h = (Type_ spec, negb (bool_decide (Labels spec = []))) ∧
  collectorType (Collector h) = handlerType h ∧
  optsName (Collector h) = Name spec ∧
  optsHelp (Collector h) = Help spec ∧
  collectorLabels (Collector h)
    = (if bool_decide (Labels spec = []) then None else Some (Labels spec)) ∧
  (Type_ spec = "histogram" →
   collectorBuckets (Collector h)
     = Some (if bool_decide (Buckets spec = []) then defaultBuckets
             else Buckets spec)).
Proof.
  unfold buildHandler. intros Hb.
  destruct (Labels spec) as [|l ls] eqn:Hl;
    destruct (Buckets spec) as [|b bs] eqn:Hbk; simpl in Hb;
    repeat (case_decide || case_match); simplify_eq/=;
    rewrite ?Hl, ?Hbk; split_and!; try done; try lia.
  all: try match goal with H : Type_ _ = _ |- _ => by rewrite H end.
Qed.

End build_facts.

(** ** The errors of [validateLabels] *)

Lemma validateMetric_Some name err :
  validateMetric name = Some err → err = ErrInvalidName name.
Proof. unfold validateMetric. destruct (negb _); congruence. Qed.

Lemma validateLabels_inner_Some labels li j fuel err :
  validateLabels_inner labels li j fuel = Some err →
  err = ErrDuplicateLabel li ∧ ∃ j', (j ≤ j')%nat ∧ labels !! j' = Some li.
Proof.
  revert j. induction fuel as [|fuel IH]; intros j; simpl; [done |].
  destruct (labels !! j) as [lj|] eqn:Hj; [| done].
  case_decide as Heq.
  - intros [= <-]. subst lj. split; [done |]. exists j. split; [lia | done].
  - intros (? & j' & ? & ?)%IH. split; [done |]. exists j'. split; [lia | done].
Qed.

Lemma validateLabels_outer_Some labels i fuel err :
  (i + fuel < length labels)%nat →
  validateLabels_outer labels i fuel = Some err →
  ∃ i' li, labels !! i' = Some li ∧ (S i' < length labels)%nat ∧
    (err = ErrInvalidName li ∧ validateMetric li = Some err
     ∨ err = ErrDuplicateLabel li ∧ ∃ j, (i' < j)%nat ∧ labels !! j = Some li).
Proof.
  revert i. induction fuel as [|fuel IH]; intros i Hlen; simpl; [done |].
  destruct (labels !! i) as [li|] eqn:Hi; [| done].
  destruct (validateMetric li) as [e|] eqn:Hv.
  - intros [= <-]. pose proof (validateMetric_Some _ _ Hv) as ->.
    exists i, li. split_and!; [done | lia | by left].
  - destruct (validateLabels_inner _ _ _ _) as [e|] eqn:Hin.
    + intros [= <-]. apply validateLabels_inner_Some in Hin as (-> & j & ? & ?).
      exists i, li. split_and!; [done | lia |]. right. split; [done |].
      exists j. split; [lia | done].
    + apply IH. lia.
Qed.

(** X19: an error of [validateLabels] names a label that is not the last
    one and is not a valid name, or a label that occurs twice in the
    list. *)
Theorem validateLabels_error labels err :
  validateLabels labels = Some err →
  ∃ i li, labels !! i = Some li ∧ (S i < length labels)%nat ∧
    (err = ErrInvalidName li ∧ validateMetric li = Some err
     ∨ err = ErrDuplicateLabel li ∧ ∃ j, (i < j)%nat ∧ labels !! j = Some li).
Proof.
  unfold validateLabels. destruct labels as [|l0 labels]; [done |].
  apply validateLabels_outer_Some. simpl. lia.
Qed.

(** X20: a list with the same label at two places is refused, wherever the
    two places are. *)
Theorem validateLabels_duplicate labels i j l :
  (i < j)%nat → labels !! i = Some l → labels !! j = Some l →
  ∃ err, validateLabels labels = Some err.
Proof.
  intros Hij Hi Hj.
  destruct (validateLabels labels) as [err|] eqn:Hv; [by eexists |].
  apply validateLabels_None in Hv as [Hnd _].
  pose proof (NoDup_lookup _ _ _ _ Hnd Hi Hj). lia.
Qed.

(** ** The objectives of a summary *)
Section more_objectives.
Context {SC : Strconv} {MO : MapOrder}.

Lemma floatMapSet_elem f value m x :
  x ∈ floatMapSet f value m → x = (f, value) ∨ x ∈ m.
Proof.
  induction m as [|[k y] m IH]; simpl.
  - intros ->%list_elem_of_singleton. by left.
  - destruct (PrimFloat.eqb k f).
    + intros [->|?]%elem_of_cons; [by left | right; by right].
    + intros [->|[->|?]%IH]%elem_of_cons;
        [right; by left | by left | right; by right].
Qed.

Lemma length_floatMapSet f value m :
  (length (floatMapSet f value m) ≤ S (length m))%nat.
Proof.
  induction m as [|[k y] m IH]; simpl; [lia |].
  destruct (PrimFloat.eqb k f); simpl; lia.
Qed.

Lemma validateObjectives_loop_elem entries result g x :
  (g, x) ∈ (validateObjectives_loop entries result).1 →
  (g, x) ∈ result ∨ ∃ k, (k, x) ∈ entries ∧ ParseFloat k = Ok g.
Proof.
  revert result. induction entries as [|[k v] rest IH]; intros result; simpl.
  - by left.
  - destruct (ParseFloat k) as [f|err] eqn:Hp; simpl; [| by left].
    intros [[[= -> ->]|?]%floatMapSet_elem|(k' & ? & ?)]%IH.
    + right. exists k. split; [by left | done].
    + by left.
    + right. exists k'. split; [by right | done].
Qed.

Lemma validateObjectives_loop_length entries result :
  (length (validateObjectives_loop entries result).1
   ≤ length result + length entries)%nat.
Proof.
  revert result. induction entries as [|[k v] rest IH]; intros result; simpl.
  - lia.
  - destruct (ParseFloat k) as [f|err]; simpl; [| lia].
    specialize (IH (floatMapSet f v result)).
    pose proof (length_floatMapSet f v result). lia.
Qed.

(** X21: every binding of the mapping that [validateObjectives] builds is
    the float of a key of the spec's objectives with the value of that
    key, and the mapping has no more bindings than the objectives have
    keys. *)
Theorem validateObjectives_bindings (m : gmap string float) :
  (∀ f v, (f, v) ∈ (validateObjectives m).1 →
          ∃ k, m !! k = Some v ∧ ParseFloat k = Ok f) ∧
  (length (validateObjectives m).1 ≤ size m)%nat.
Proof.
  unfold validateObjectives. split.
  - intros f v [?%elem_of_nil|(k & Hin & Hp)]%validateObjectives_loop_elem;
      [done |].
    exists k. split; [| done].
    rewrite (range_perm _ m) in Hin. by apply elem_of_map_to_list in Hin.
  - pose proof (validateObjectives_loop_length (range m) []) as Hlen.
    assert (length (range m) = size m) as Hsize
      by (by rewrite (range_perm _ m), length_map_to_list).
    simpl in Hlen. lia.
Qed.

Lemma validateObjectives_loop_app entries1 entries2 result :
  (validateObjectives_loop entries1 result).2 = None →
  validateObjectives_loop (entries1 ++ entries2) result
  = validateObjectives_loop entries2 (validateObjectives_loop entries1 result).1.
Proof.
  revert result. induction entries1 as [|[k v] rest IH]; intros result; simpl;
    [done |].
  destruct (ParseFloat k) as [f|err]; [apply IH | done].
Qed.

(** X22: when two keys of the objectives parse to the same float, the
    value that the summary gets for it is the one of the key that [range]
    visits last: with the key [k] visited last, the float of [k] is bound
    to the value of [k]. *)
Theorem validateObjectives_last_wins (m : gmap string float) entries k v f :
  range m = entries ++ [(k, v)] →
  (validateObjectives m).2 = None →
  ParseFloat k = Ok f →
  PrimFloat.eqb f f = true →
  floatMapGet f (validateObjectives m).1 = Some v.
Proof.
  unfold validateObjectives. intros -> Hnone Hp Hf.
  assert ((validateObjectives_loop entries []).2 = None) as Hpre.
  { apply validateObjectives_loop_None. intros k' v' Hin.
    apply validateObjectives_loop_None with (k := k') (v := v') in Hnone;
      [done |]. apply elem_of_app. by left. }
  rewrite validateObjectives_loop_app by done. simpl. rewrite Hp. simpl.
  by apply floatMapGet_set.
Qed.

End more_objectives.

(** ** The format of the fingerprint *)
Module MD5Facts.
Import MD5.
Local Open Scope Z_scope.

Lemma length_le_bytes n x : length (le_bytes n x) = n.
Proof. revert x. induction n as [|n IH]; intros x; simpl; [done |]. by rewrite IH. Qed.

Lemma le_bytes_range n x : Forall (λ b, 0 ≤ b < 256) (le_bytes n x).
Proof.
  revert x. induction n as [|n IH]; intros x; simpl; constructor; [| done].
  apply Z.mod_pos_bound. lia.
Qed.

Lemma length_Sum bs : length (Sum bs) = 16%nat.
Proof.
  unfold Sum. destruct (foldl block init _) as [a b c e].
  by rewrite !length_app, !length_le_bytes.
Qed.

Lemma Sum_range bs : Forall (λ b, 0 ≤ b < 256) (Sum bs).
Proof.
  unfold Sum. destruct (foldl block init _) as [a b c e].
  rewrite !Forall_app. split_and!; apply le_bytes_range.
Qed.

Lemma length_hex bs : String.length (hex bs) = (2 * length bs)%nat.
Proof. induction bs as [|b bs IH]; simpl; [done |]. rewrite IH. lia. Qed.

Lemma hexdigit_hexChars x : 0 ≤ x < 16 → hexdigit x ∈ hexChars.
Proof.
  intros Hx.
  assert (x = 0 ∨ x = 1 ∨ x = 2 ∨ x = 3 ∨ x = 4 ∨ x = 5 ∨ x = 6 ∨ x = 7 ∨
          x = 8 ∨ x = 9 ∨ x = 10 ∨ x = 11 ∨ x = 12 ∨ x = 13 ∨ x = 14 ∨ x = 15)
    as Hcases by lia.
  destruct_or!; subst x; apply (bool_decide_unpack _); by vm_compute.
Qed.

Lemma hex_hexChars bs :
  Forall (λ b, 0 ≤ b < 256) bs →
  Forall (λ c, c ∈ hexChars) (String.list_ascii_of_string (hex bs)).
Proof.
  induction 1 as [|b bs Hb _ IH]; simpl; [constructor |].
  apply Forall_cons; split; [| apply Forall_cons; split; [| done]].
  - apply hexdigit_hexChars. split; [apply Z.div_pos; lia |].
    apply Z.div_lt_upper_bound; lia.
  - apply hexdigit_hexChars. apply Z.mod_pos_bound. lia.
Qed.

End MD5Facts.

Lemma string_app_assoc (s1 s2 s3 : string) :
  (s1 +:+ s2) +:+ s3 = s1 +:+ (s2 +:+ s3).
Proof.
  induction s1 as [|c s1 IH]; [done |].
  change (String c ((s1 +:+ s2) +:+ s3) = String c (s1 +:+ (s2 +:+ s3))).
  by rewrite IH.
Qed.

(** X23: a fingerprint is a string of 32 characters, each a digit or a
    letter from a to f. *)
Theorem Hash_format {SC : Strconv} (ms : MetricSpec) :
  String.length (Hash ms) = 32 ∧
  Forall (λ c, c ∈ hexChars) (String.list_ascii_of_string (Hash ms)).
Proof.
  unfold Hash, MD5.hexdigest. split.
  - by rewrite MD5Facts.length_hex, MD5Facts.length_Sum.
  - apply MD5Facts.hex_hexChars, MD5Facts.Sum_range.
Qed.

(** X24: the fingerprint is taken from the concatenation of the type, the
    help and the renderings of the other fields, with nothing between
    them, and the labels are rendered with spaces between them: two specs
    whose type and help concatenate to the same string and whose labels
    join to the same string have the same fingerprint when their buckets
    and objectives are equal. *)
Theorem Hash_concatenation {SC : Strconv} (a b : MetricSpec) :
  Type_ a +:+ Help a = Type_ b +:+ Help b →
  String.concat " " (Labels a) = String.concat " " (Labels b) →
  Buckets a = Buckets b → Objectives a = Objectives b →
  Hash a = Hash b.
Proof.
  intros Hth Hl Hb Ho. unfold Hash, SprintfStrings.
  rewrite <- !(string_app_assoc (Type_ _) (Help _)), Hth, Hl, Hb, Ho. done.
Qed.

(** ** The listener, the decoder and the run loop together *)
Section pipeline_facts.
Context {JS : Json} {Surface : Type} {EX : Exposition Surface}.

Lemma readerSent_turns accepts :
  readerSent (accepts ≫= DataReader_turn) = acceptedData accepts.
Proof.
  unfold readerSent, acceptedData.
  induction accepts as [|a rest IH]; [done |].
  rewrite bind_cons, omap_app, IH. by destruct a.
Qed.

Lemma readerCounted_turns accepts :
  readerCounted (accepts ≫= DataReader_turn)
  = (λ _, "error") <$> acceptErrors accepts.
Proof.
  unfold readerCounted, acceptErrors.
  induction accepts as [|a rest IH]; [done |].
  rewrite bind_cons, omap_app, IH. by destruct a.
Qed.


Lemma DataParser_accounted payloads :
  length (counted (DataParser payloads)) + length (sent (DataParser payloads))
  = sum_list (accounted <$> payloads).
Proof.
  unfold DataParser. induction payloads as [|d rest IH]; [done |].
  rewrite bind_cons, fmap_cons. unfold counted, sent in *.
  rewrite !omap_app, !length_app. simpl sum_list. rewrite <- IH.
  unfold DataParser_turn, accounted.
  destruct (Unmarshal d) as [metrics|err]; simpl; [| lia].
  rewrite DataParser_send_drop, drop_0 by done.
  fold (sent (EvSend <$> metrics)). fold (counted (EvSend <$> metrics)).
  rewrite sent_EvSend, counted_EvSend. simpl. lia.
Qed.

Lemma accepts_accounted accepts :
  length (acceptErrors accepts) + sum_list (accounted <$> acceptedData accepts)
  = sum_list (acceptAccounted <$> accepts).
Proof.
  unfold acceptErrors, acceptedData.
  induction accepts as [|[c|err] rest IH]; [done | |].
  - rewrite fmap_cons. cbn [omap list_omap]. rewrite fmap_cons.
    change (sum_list (?x :: ?l)) with (x + sum_list l).
    cbn [acceptAccounted]. lia.
  - rewrite fmap_cons. cbn [omap list_omap length].
    change (sum_list (?x :: ?l)) with (x + sum_list l).
    cbn [acceptAccounted]. lia.
Qed.

(** X26: what comes in is counted once: when the payloads that the
    listener sends go through a decoder and the updates that the decoder
    sends go through the run loop, [CountMetric] is called once for each
    call of [Accept] that failed, once for each payload that did not
    decode, and once for each update of the payloads that decoded. *)
Theorem pipeline_accounted (w : World Surface) accepts :
  let reader := DataReader accepts in
  let parser := DataParser (readerSent reader) in
  let loop := (Process w (GotMetric <$> sent parser)).1.2 in
  length (readerCounted reader) + length (counted parser)
  + length (processCounted loop)
  = sum_list (acceptAccounted <$> accepts).
Proof.
  intros reader parser loop.
  pose proof (Process_loop_metrics w (sent parser) []) as (_ & Hloop & _).
  assert (length (processCounted loop) = length (sent parser)) as ->.
  { subst loop. unfold Process.
    destruct (Process_loop w (GotMetric <$> sent parser)) as [[w' evs] r].
    done. }
  subst parser reader. rewrite <- Nat.add_assoc, DataParser_accounted.
  change (readerSent (DataReader accepts))
    with (readerSent (accepts ≫= DataReader_turn)).
  change (readerCounted (DataReader accepts))
    with (readerCounted (accepts ≫= DataReader_turn)).
  rewrite readerSent_turns, readerCounted_turns, length_fmap.
  apply accepts_accounted.
Qed.

End pipeline_facts.

(** ** The properties above on the instances of the examples *)
Section more_examples.
Import Sample MoreSamples.
#[local] Existing Instance listOrder.
#[local] Existing Instance strconv.
#[local] Existing Instance surface.
#[local] Existing Instance json.
#[local] Existing Instance tracked.
#[local] Existing Instance releasing.

Lemma register_frame_witness :
  "zz" ≠ Name counterNew ∧
  handlers (register worldOld counterNew).1 !! "zz" = handlers worldOld !! "zz".
Proof.
  assert (Hne : "zz" ≠ Name counterNew) by discriminate.
  exact (conj Hne (register_frame worldOld counterNew "zz" Hne)).
Defined.


(** On the surface that accepts no registration, a changed spec costs the
    name its handler. *)
Example register_loses_handler :
  handlers (@register _ _ _ closed closedWorld counterNew).1 = ∅.
Proof. vm_compute. reflexivity. Qed.

Lemma register_fresh_stores_witness :
  handlers world0 !! Name counterOld = None ∧
  (register world0 counterOld).2 = None ∧
  ∃ h, buildHandler counterOld = Ok h ∧ Spec h = counterOld ∧
       promRegister (Collector h) (prom world0)
       = (prom (register world0 counterOld).1, None) ∧
       handlers (register world0 counterOld).1
       = <[Name counterOld := h]> (handlers world0).
Proof.
  assert (Hl : handlers world0 !! Name counterOld = None) by reflexivity.
  assert (Hr : (register world0 counterOld).2 = None) by (vm_compute; reflexivity).
  exact (conj Hl (conj Hr (register_fresh_stores world0 counterOld Hl Hr))).
Defined.

Lemma register_unregister_witness :
  handlers world0 !! Name counterOld = None ∧
  (register world0 counterOld).2 = None ∧
  (unregister (register world0 counterOld).1 (Name counterOld)).2 = None ∧
  handlers (unregister (register world0 counterOld).1 (Name counterOld)).1
  = handlers world0.
Proof.
  assert (Hl : handlers world0 !! Name counterOld = None) by reflexivity.
  assert (Hr : (register world0 counterOld).2 = None) by (vm_compute; reflexivity).
  assert (Hu : (unregister (register world0 counterOld).1 (Name counterOld)).2
               = None) by (vm_compute; reflexivity).
  exact (conj Hl (conj Hr (conj Hu
    (register_unregister world0 counterOld Hl Hr Hu)))).
Defined.

Lemma Reload_keeps_unchanged_witness :
  handlers worldOld !! "ab" = Some oldHandler ∧
  "ab" ∈ Name <$> [summaryGood; counterOld] ∧
  (∀ spec, spec ∈ [summaryGood; counterOld] → Name spec = "ab" →
           Hash (Spec oldHandler) = Hash spec) ∧
  handlers (Reload worldOld [summaryGood; counterOld]).1 !! "ab"
  = Some oldHandler.
Proof.
  assert (Hl : handlers worldOld !! "ab" = Some oldHandler) by reflexivity.
  assert (Hin : "ab" ∈ Name <$> [summaryGood; counterOld])
    by (right; left).
  assert (Hsame : ∀ spec, spec ∈ [summaryGood; counterOld] → Name spec = "ab" →
                          Hash (Spec oldHandler) = Hash spec).
  { intros spec [->|[->|?%elem_of_nil]%elem_of_cons]%elem_of_cons Hn;
      [discriminate | reflexivity | done]. }
  exact (conj Hl (conj Hin (conj Hsame
    (Reload_keeps_unchanged worldOld [summaryGood; counterOld] "ab" oldHandler
       Hl Hin Hsame)))).
Defined.

Lemma Process_unknown_names_witness :
  (∀ metric, metric ∈ [unknownMetric] →
             handlers worldOld !! MetricName metric = None) ∧
  Process worldOld ((GotMetric <$> [unknownMetric]) ++ [GotDone true])
  = (worldOld,
     PrStart ::
       ([unknownMetric] ≫= λ metric,
          [PrCountMetric "error";
           PrError (ErrHandleMissing (MetricName metric)) metric]),
     Some []).
Proof.
  assert (Hall : ∀ metric, metric ∈ [unknownMetric] →
                           handlers worldOld !! MetricName metric = None)
    by (intros metric ->%list_elem_of_singleton; reflexivity).
  exact (conj Hall (Process_unknown_names worldOld [unknownMetric] true Hall)).
Defined.

Example Process_example :
  (Process worldOld
     [GotMetric addMetric; GotMetric unknownMetric; GotDone true;
      GotMetric addMetric]).2 = Some [GotMetric addMetric] ∧
  processCounted
    (Process worldOld
       [GotMetric addMetric; GotMetric unknownMetric; GotDone true;
        GotMetric addMetric]).1.2 = ["ok"; "error"].
Proof. split; vm_compute; reflexivity. Qed.

Lemma in_sync_worldOld : in_sync worldOld.
Proof.
  split; simpl.
  - intros k h. rewrite lookup_singleton_Some. by intros [<- <-].
  - by rewrite dom_singleton_L.
Defined.

Lemma names_valid_worldOld : names_valid worldOld.
Proof.
  intros k [h Hk]. simpl in Hk. apply lookup_singleton_Some in Hk as [<- _].
  reflexivity.
Defined.

Lemma in_sync_preserved_witness :
  in_sync worldOld ∧
  in_sync (register worldOld counterNew).1 ∧
  in_sync (unregister worldOld "ab").1 ∧
  in_sync (Reload worldOld [summaryGood]).1 ∧
  in_sync (doHandle worldOld addMetric).1 ∧
  in_sync (Process worldOld [GotMetric addMetric; GotDone true]).1.1.
Proof.
  exact (conj in_sync_worldOld
    (in_sync_preserved worldOld counterNew "ab" [summaryGood] addMetric
       [GotMetric addMetric; GotDone true] in_sync_worldOld)).
Defined.


Lemma Reload_names_registered_witness :
  in_sync worldOld ∧ names_valid worldOld ∧
  (∀ n, n ∈ doNames (Reload worldOld [summaryGood; badName]).1
        ↔ LogRegistered n ∈ (Reload worldOld [summaryGood; badName]).2) ∧
  names_valid (Reload worldOld [summaryGood; badName]).1.
Proof.
  exact (conj in_sync_worldOld (conj names_valid_worldOld
    (Reload_names_registered worldOld [summaryGood; badName]
       in_sync_worldOld names_valid_worldOld))).
Defined.

Example Reload_names_registered_example :
  doNames (Reload worldOld [summaryGood; badName]).1 = ["lat"] ∧
  (Reload worldOld [summaryGood; badName]).2
  = [LogRegistered "lat"; LogErrorRegistering "Bad" (ErrInvalidName "Bad");
     LogUnregistered "ab"].
Proof. split; vm_compute; reflexivity. Qed.

Lemma buildHandler_shape_witness :
  buildHandler gaugeVec = Ok gaugeVecHandler ∧
  Spec gaugeVecHandler = gaugeVec ∧
  handlerType gaugeVecHandler
  = (Type_ gaugeVec, negb (bool_decide (Labels gaugeVec = []))) ∧
  collectorType (Collector gaugeVecHandler) = handlerType gaugeVecHandler ∧
  optsName (Collector gaugeVecHandler) = Name gaugeVec ∧
  optsHelp (Collector gaugeVecHandler) = Help gaugeVec ∧
  collectorLabels (Collector gaugeVecHandler)
    = (if bool_decide (Labels gaugeVec = []) then None
       else Some (Labels gaugeVec)) ∧
  (Type_ gaugeVec = "histogram" →
   collectorBuckets (Collector gaugeVecHandler)
     = Some (if bool_decide (Buckets gaugeVec = []) then defaultBuckets
             else Buckets gaugeVec)).
Proof.
  assert (Hb : buildHandler gaugeVec = Ok gaugeVecHandler) by reflexivity.
  exact (conj Hb (buildHandler_shape gaugeVec gaugeVecHandler Hb)).
Defined.

Lemma validateLabels_error_witness :
  validateLabels ["Bad"; "ok"] = Some (ErrInvalidName "Bad") ∧
  ∃ i li, ["Bad"; "ok"] !! i = Some li ∧ (S i < length ["Bad"; "ok"])%nat ∧
    (ErrInvalidName "Bad" = ErrInvalidName li
       ∧ validateMetric li = Some (ErrInvalidName "Bad")
     ∨ ErrInvalidName "Bad" = ErrDuplicateLabel li
       ∧ ∃ j, (i < j)%nat ∧ ["Bad"; "ok"] !! j = Some li).
Proof.
  assert (Hv : validateLabels ["Bad"; "ok"] = Some (ErrInvalidName "Bad"))
    by reflexivity.
  exact (conj Hv (validateLabels_error ["Bad"; "ok"] (ErrInvalidName "Bad") Hv)).
Defined.

Lemma validateLabels_duplicate_witness :
  (0 < 2)%nat ∧ ["aa"; "bb"; "aa"] !! 0%nat = Some "aa" ∧
  ["aa"; "bb"; "aa"] !! 2%nat = Some "aa" ∧
  ∃ err, validateLabels ["aa"; "bb"; "aa"] = Some err.
Proof.
  assert (Hij : (0 < 2)%nat) by lia.
  assert (Hi : ["aa"; "bb"; "aa"] !! 0%nat = Some "aa") by reflexivity.
  assert (Hj : ["aa"; "bb"; "aa"] !! 2%nat = Some "aa") by reflexivity.
  exact (conj Hij (conj Hi (conj Hj
    (validateLabels_duplicate ["aa"; "bb"; "aa"] 0 2 "aa" Hij Hi Hj)))).
Defined.

Lemma validateObjectives_last_wins_witness :
  range (Objectives summaryTwice)
  = [("0.50", 0.01%float)] ++ [("0.5", 0.05%float)] ∧
  (validateObjectives (Objectives summaryTwice)).2 = None ∧
  ParseFloat "0.5" = Ok 0.5%float ∧
  PrimFloat.eqb 0.5 0.5 = true ∧
  floatMapGet 0.5 (validateObjectives (Objectives summaryTwice)).1
  = Some 0.05%float.
Proof.
  assert (Hr : range (Objectives summaryTwice)
               = [("0.50", 0.01%float)] ++ [("0.5", 0.05%float)])
    by (vm_compute; reflexivity).
  assert (Hn : (validateObjectives (Objectives summaryTwice)).2 = None)
    by (vm_compute; reflexivity).
  assert (Hp : ParseFloat "0.5" = Ok 0.5%float) by (vm_compute; reflexivity).
  assert (Hf : PrimFloat.eqb 0.5 0.5 = true) by (vm_compute; reflexivity).
  exact (conj Hr (conj Hn (conj Hp (conj Hf
    (validateObjectives_last_wins (Objectives summaryTwice)
       [("0.50", 0.01%float)] "0.5" 0.05%float 0.5%float Hr Hn Hp Hf))))).
Defined.

(** The objectives of the summary depend on the order of [range]. *)
Example buildHandler_depends_on_range :
  @buildHandler strconv listOrder summaryTwice
  = Ok (SummaryHandler summaryTwice (NewSummary "lat" "h" [(0.5, 0.05)]%float)) ∧
  @buildHandler strconv reverseOrder summaryTwice
  = Ok (SummaryHandler summaryTwice (NewSummary "lat" "h" [(0.5, 0.01)]%float)).
Proof. split; vm_compute; reflexivity. Qed.

Lemma Hash_concatenation_witness :
  Type_ twoLabels +:+ Help twoLabels = Type_ threeLabels +:+ Help threeLabels ∧
  String.concat " " (Labels twoLabels) = String.concat " " (Labels threeLabels) ∧
  Buckets twoLabels = Buckets threeLabels ∧
  Objectives twoLabels = Objectives threeLabels ∧
  Labels twoLabels ≠ Labels threeLabels ∧
  Hash twoLabels = Hash threeLabels.
Proof.
  assert (Hth : Type_ twoLabels +:+ Help twoLabels
                = Type_ threeLabels +:+ Help threeLabels) by reflexivity.
  assert (Hl : String.concat " " (Labels twoLabels)
               = String.concat " " (Labels threeLabels)) by reflexivity.
  assert (Hb : Buckets twoLabels = Buckets threeLabels) by reflexivity.
  assert (Ho : Objectives twoLabels = Objectives threeLabels) by reflexivity.
  assert (Hne : Labels twoLabels ≠ Labels threeLabels) by discriminate.
  exact (conj Hth (conj Hl (conj Hb (conj Ho (conj Hne
    (Hash_concatenation twoLabels threeLabels Hth Hl Hb Ho)))))).
Defined.

(** Both specs are registered when their name is free, and registering
    the second after the first changes nothing. *)
Example Hash_concatenation_example :
  (register world0 twoLabels).2 = None ∧
  (register world0 threeLabels).2 = None ∧
  register (register world0 twoLabels).1 threeLabels
  = ((register world0 twoLabels).1, None).
Proof. split_and!; vm_compute; reflexivity. Qed.

Example pipeline_example :
  let accepts :=
    [Ok {| connData := incPayload; connReadErr := None |};
     Err (ErrLibrary "accept: too many open files");
     Ok {| connData := "junk"; connReadErr := Some (ErrLibrary "reset") |}] in
  readerSent (DataReader accepts) = [incPayload; "junk"] ∧
  sent (DataParser (readerSent (DataReader accepts))) = [incMetric] ∧
  sum_list (acceptAccounted <$> accepts) = 3%nat.
Proof. split_and!; vm_compute; reflexivity. Qed.

End more_examples.

Section more_examples_objectives.
Import Sample.
#[local] Existing Instance listOrder.
#[local] Existing Instance strconv.

Lemma validateObjectives_bindings_witness :
  (0.9, 0.01)%float ∈ (validateObjectives (Objectives summaryGood)).1 ∧
  (∃ k, Objectives summaryGood !! k = Some 0.01%float
        ∧ ParseFloat k = Ok 0.9%float) ∧
  (length (validateObjectives (Objectives summaryGood)).1
   ≤ size (Objectives summaryGood))%nat.
Proof.
  assert (Hin : (0.9, 0.01)%float
                ∈ (validateObjectives (Objectives summaryGood)).1).
  { replace (validateObjectives (Objectives summaryGood)).1
      with [(0.5, 0.05); (0.9, 0.01)]%float by (vm_compute; reflexivity).
    right. left. }
  destruct (validateObjectives_bindings (Objectives summaryGood)) as [Hb Hlen].
  exact (conj Hin (conj (Hb _ _ Hin) Hlen)).
Defined.

End more_examples_objectives.
